(** * Smart-Attendance IoT core: liveness registry, ingestion pipeline and
      topic matcher, embedded from the Python sources

    - [DeviceManager]  : src/iot_module/device-manager.py
    - [DataProcessor]  : src/iot_module/data_processor.py
    - [MQTTClient]     : src/iot_module/mqtt-client.py

    Conventions.  A [datetime] is an integer number of microseconds (the
    resolution of Python's [datetime]); [(a - b).total_seconds() > s] for an
    integer [s] is then [s * 1000000 < a - b].  A Python [dict] keyed by
    strings is a [gmap string _], a Python [set] of strings a [gset string];
    iteration over them is [map_to_list] and [elements].  Calls into
    external services (database, HTTP, MQTT transport, JSON decoding) take
    their outcome as an argument and record what was sent in an event list. *)

From Stdlib Require Import ZArith Lia Ascii String QArith Qminmax Qpower Lqa.
From stdpp Require Import gmap strings list fin_maps fin_sets sorting.

Local Open Scope Z_scope.

Set Warnings "-clear-no-such-hyp,-register-all".

(** [total_seconds() > s] and [total_seconds() < s] on a microsecond delta. *)
Definition usec (s : Z) : Z := s * 1000000.
Definition total_seconds_gt (delta s : Z) : bool := bool_decide (usec s < delta).
Definition total_seconds_lt (delta s : Z) : bool := bool_decide (delta < usec s).

(* ===================================================================== *)
(** * DeviceManager (device-manager.py)                                   *)
(* ===================================================================== *)
Module DeviceManager.

Inductive status := active | offline.

#[global] Instance status_eq_dec : EqDecision status.
Proof. solve_decision. Defined.

Definition status_name (s : status) : string :=
  match s with active => "active" | offline => "offline" end.

(** One value of [self.devices]. *)
Record device_info := mk_device_info {
  device_id : string;
  ip_address : string;
  dev_status : status;
  last_heartbeat : Z;
  connected_at : Z;
  protocol : string
}.

Definition set_status (s : status) (d : device_info) : device_info :=
  mk_device_info (device_id d) (ip_address d) s (last_heartbeat d)
                 (connected_at d) (protocol d).

Definition set_last_heartbeat (t : Z) (d : device_info) : device_info :=
  mk_device_info (device_id d) (ip_address d) (dev_status d) t
                 (connected_at d) (protocol d).

(** The manager's mutable fields. *)
Record manager := mk_manager {
  devices : gmap string device_info;
  active_devices : gset string
}.

Definition heartbeat_interval : Z := 60.
Definition heartbeat_timeout : Z := 300.

(** [__init__] *)
Definition init : manager := mk_manager ∅ ∅.

(** What a lookup-then-save on the [Device] collection does. *)
Inductive db_result := db_saved | db_no_document | db_raises.

Inductive event :=
  | EvMarkedOffline (id : string)          (* warning + devices_to_mark_offline.append *)
  | EvDbSave (id : string) (s : status)    (* device.save() went through *)
  | EvDbError (id : string).               (* logger.error in the except branch *)

#[global] Instance event_eq_dec : EqDecision event.
Proof. solve_decision. Defined.

Definition db_sync (db : db_result) (id : string) (s : status) : list event :=
  match db with
  | db_saved => [EvDbSave id s]
  | db_no_document => []
  | db_raises => [EvDbError id]
  end.

(** [register_device]; [now] and [now_conn] are the two clock readings. *)
Definition register_device (now now_conn : Z) (id ip : string) (m : manager)
  : bool * manager :=
  (true,
   mk_manager
     (<[id := mk_device_info id ip active now now_conn "mqtt"]> (devices m))
     ({[id]} ∪ active_devices m)).

(** [unregister_device] *)
Definition unregister_device (id : string) (m : manager) : bool * manager :=
  match devices m !! id with
  | Some _ => (true, mk_manager (delete id (devices m)) (active_devices m ∖ {[id]}))
  | None => (false, m)
  end.

(** [get_device_status] *)
Definition get_device_status (id : string) (m : manager) : string :=
  match devices m !! id with
  | Some d => status_name (dev_status d)
  | None => "unknown"
  end.

(** [get_active_devices] *)
Definition get_active_devices (m : manager) : list string :=
  elements (active_devices m).

(** [get_device_info] *)
Definition get_device_info (id : string) (m : manager) : option device_info :=
  devices m !! id.

(** [update_device_heartbeat]: result, new state, database events. *)
Definition update_device_heartbeat (db : db_result) (now : Z) (id : string)
    (m : manager) : bool * manager * list event :=
  match devices m !! id with
  | Some d =>
      (true,
       mk_manager (<[id := set_status active (set_last_heartbeat now d)]> (devices m))
                  ({[id]} ∪ active_devices m),
       db_sync db id active)
  | None => (false, m, [])
  end.

(** The test of the sweep loop on one record. *)
Definition missed_heartbeat (timeout now : Z) (d : device_info) : bool :=
  total_seconds_gt (now - last_heartbeat d) timeout
  && bool_decide (dev_status d = active).

(** Body of the [for device_id, device_info in self.devices.items()] loop:
    the record is mutated in place, the id leaves the active set and is
    appended to [devices_to_mark_offline]. *)
Definition sweep_device (timeout now : Z) (acc : manager * list string)
    (entry : string * device_info) : manager * list string :=
  if missed_heartbeat timeout now entry.2 then
    (mk_manager (<[entry.1 := set_status offline entry.2]> (devices acc.1))
                (active_devices acc.1 ∖ {[entry.1]}),
     acc.2 ++ [entry.1])
  else acc.

(** The locked part of one pass of [_monitor_heartbeats]. *)
Definition sweep_locked (timeout now : Z) (m : manager) : manager * list string :=
  foldl (sweep_device timeout now) (m, []) (map_to_list (devices m)).

(** One pass of [_monitor_heartbeats]: the locked loop, then the database
    updates for the collected ids ([db] gives the outcome per device). *)
Definition monitor_heartbeats_pass (timeout : Z) (db : string → db_result)
    (now : Z) (m : manager) : manager * list event :=
  let r := sweep_locked timeout now m in
  (r.1, (EvMarkedOffline <$> r.2) ++ (r.2 ≫= λ id, db_sync (db id) id offline)).

(** Reply of a device to an HTTP POST. *)
Inductive response := Status (code : Z) | Raised.

Record attempt := mk_attempt {
  att_device : string;
  att_url : string;
  att_message : string
}.

Definition delivered (r : response) : bool :=
  match r with Status code => bool_decide (code = 200) | Raised => false end.

(** [f"http://{device_ip}/api/message"] *)
Definition post_url (d : device_info) : string :=
  "http://" +:+ ip_address d +:+ "/api/message".

(** Body of the [for device_id in active_devices] loop of
    [broadcast_message]; [acc] is (sent_count, failed_count, posts made). *)
Definition broadcast_device (net : string → response) (message : string)
    (m : manager) (acc : nat * nat * list attempt) (id : string)
  : nat * nat * list attempt :=
  match get_device_info id m with
  | None => acc
  | Some d =>
      let post := mk_attempt id (post_url d) message in
      if delivered (net id)
      then (S acc.1.1, acc.1.2, acc.2 ++ [post])
      else (acc.1.1, S acc.1.2, acc.2 ++ [post])
  end.

(** [broadcast_message] *)
Definition broadcast_message (net : string → response) (message : string)
    (m : manager) : nat * nat * list attempt :=
  foldl (broadcast_device net message m) (0%nat, 0%nat, [])
        (elements (active_devices m)).

(** Calls that change the registry. *)
Inductive op :=
  | Register (now now_conn : Z) (id ip : string)
  | Unregister (id : string)
  | Heartbeat (db : db_result) (now : Z) (id : string)
  | Sweep (db : string → db_result) (now : Z).

Definition step (timeout : Z) (o : op) (m : manager) : manager * list event :=
  match o with
  | Register now now_conn id ip => ((register_device now now_conn id ip m).2, [])
  | Unregister id => ((unregister_device id m).2, [])
  | Heartbeat db now id =>
      let r := update_device_heartbeat db now id m in (r.1.2, r.2)
  | Sweep db now => monitor_heartbeats_pass timeout db now m
  end.

Fixpoint run (timeout : Z) (ops : list op) (m : manager) : manager * list event :=
  match ops with
  | [] => (m, [])
  | o :: ops' =>
      let r := step timeout o m in
      let r' := run timeout ops' r.1 in
      (r'.1, r.2 ++ r'.2)
  end.

(** [_monitor_heartbeats]: the [while True] loop, one pass per clock
    reading in [ticks] (each with the database outcomes of that pass). *)
Fixpoint _monitor_heartbeats (timeout : Z) (ticks : list (Z * (string → db_result)))
    (m : manager) : manager * list event :=
  match ticks with
  | [] => (m, [])
  | (now, db) :: later =>
      let r := monitor_heartbeats_pass timeout db now m in
      let r' := _monitor_heartbeats timeout later r.1 in
      (r'.1, r.2 ++ r'.2)
  end.

Inductive reachable (timeout : Z) : manager → Prop :=
  | reachable_init : reachable timeout init
  | reachable_step o m : reachable timeout m → reachable timeout (step timeout o m).1.

(** The two views agree: membership in [active_devices] is exactly "has a
    record whose status is active". *)
Definition consistent (m : manager) : Prop :=
  ∀ id, id ∈ active_devices m ↔
        ∃ d, devices m !! id = Some d ∧ dev_status d = active.

(** What the sweep test makes of one record. *)
Definition swept (timeout now : Z) (d : device_info) : device_info :=
  if missed_heartbeat timeout now d then set_status offline d else d.

(** How often [k] occurs in [devices_to_mark_offline]. *)
Definition occurrences (k : string) (l : list string) : nat :=
  length (filter (λ x, x = k) l).

(** How often [id] was taken from active to offline in an event list. *)
Definition transitions (id : string) (evs : list event) : nat :=
  length (filter (λ e, e = EvMarkedOffline id) evs).

(** Calls that name the device [id]; a sweep names none. *)
Definition mentions (id : string) (o : op) : bool :=
  match o with
  | Register _ _ id' _ | Unregister id' | Heartbeat _ _ id' => bool_decide (id' = id)
  | Sweep _ _ => false
  end.

(** A sweep whose clock reading is more than [timeout] seconds after [T]. *)
Definition late_sweep (timeout T : Z) (o : op) : bool :=
  match o with
  | Sweep _ now => total_seconds_gt (now - T) timeout
  | _ => false
  end.

(** The heartbeat clause of the sweep property read literally: any
    heartbeat between the registration and a sweep that runs after
    [T + timeout] keeps the device active at that sweep. *)
Definition heartbeat_before_sweep_prevents (timeout : Z) : Prop :=
  ∀ m0 T Tc id ip db dbs h now,
    T ≤ h → h < now → T + usec timeout < now →
    let m1 := (register_device T Tc id ip m0).2 in
    let m2 := (update_device_heartbeat db h id m1).1.2 in
    get_device_status id (monitor_heartbeats_pass timeout dbs now m2).1 = "active".

(** A sequence of [update_device_heartbeat] calls on one device, each with
    its database outcome and clock reading: result and registry after each. *)
Fixpoint heartbeats (id : string) (calls : list (db_result * Z)) (m : manager)
  : list (bool * manager) :=
  match calls with
  | [] => []
  | (db, now) :: rest =>
      let r := update_device_heartbeat db now id m in
      (r.1.1, r.1.2) :: heartbeats id rest r.1.2
  end.

Definition last_heartbeat_of (id : string) (m : manager) : Z :=
  from_option last_heartbeat 0 (devices m !! id).

(** Three registered cameras, and a network on which cam2 is unreachable. *)
Definition three_cameras : manager :=
  (register_device 2 2 "cam3" "10.0.0.7"
     (register_device 1 1 "cam2" "10.0.0.6"
        (register_device 0 0 "cam1" "10.0.0.5" init).2).2).2.

Definition cam2_down (id : string) : response :=
  if decide (id = "cam2") then Raised else Status 200.

(** [configure_device]: the result and the HTTP post made, if any.  The
    body is the configuration, taken as text. *)
Definition configure_device (net : string → response) (id config : string)
    (m : manager) : bool * list attempt :=
  match devices m !! id with
  | None => (false, [])
  | Some d =>
      (delivered (net id),
       [mk_attempt id ("http://" +:+ ip_address d +:+ "/api/configure") config])
  end.

(** [restart_device]: the post has no body. *)
Definition restart_device (net : string → response) (id : string) (m : manager)
  : bool * list attempt :=
  match devices m !! id with
  | None => (false, [])
  | Some d =>
      (delivered (net id),
       [mk_attempt id ("http://" +:+ ip_address d +:+ "/api/restart") ""])
  end.

End DeviceManager.

(* ===================================================================== *)
(** * DataProcessor (data_processor.py)                                   *)
(* ===================================================================== *)
Module DataProcessor.

(** A face region cut out of a decoded image: its pixel count and, when
    JPEG encoding goes through, its base64 text. *)
Record face := mk_face {
  region_size : nat;
  face_jpeg : option string
}.

(** The keys of an attendance payload that the processor reads with
    [data.get]; [None] is a missing key. *)
Record attendance := mk_attendance {
  user_id : option string;
  verification_method : option string;
  att_status : option string
}.

(** [item['data']].  An image is represented by what decoding and the face
    detector make of it: [None] when decoding or detection raises or the
    format is unsupported. *)
Inductive payload :=
  | ImageData (detected : option (list face))
  | AttendanceData (a : attendance)
  | RawData (raw : string).

(** The keys of [item['metadata']] that the processor reads. *)
Record metadata := mk_metadata {
  location : option string;
  report_to_backend : bool;
  sensor_type : option string
}.

Definition no_metadata : metadata := mk_metadata None false None.

Record item := mk_item {
  item_type : string;
  data : payload;
  item_metadata : metadata;
  timestamp : Z
}.

Record processor := mk_processor {
  device_id : string;
  processing_queue : list item;
  max_queue_size : nat;
  last_attendance_time : gmap string Z;
  min_attendance_interval : Z;
  face_detector : bool
}.

(** [__init__]; [detector] tells whether the cascade file was found. *)
Definition init (id : string) (detector : bool) : processor :=
  mk_processor id [] 100 ∅ 60 detector.

Definition set_queue (q : list item) (p : processor) : processor :=
  mk_processor (device_id p) q (max_queue_size p) (last_attendance_time p)
               (min_attendance_interval p) (face_detector p).

Definition set_last_attendance_time (t : gmap string Z) (p : processor) : processor :=
  mk_processor (device_id p) (processing_queue p) (max_queue_size p) t
               (min_attendance_interval p) (face_detector p).

Inductive level := debug | info | warning | error.

Inductive event :=
  | Log (l : level)
  | PostAttendance (user device : string) (time : Z)
                   (method loc stat : string)      (* _send_attendance_data *)
  | PostFace (face_data device loc : string)       (* _send_attendance_request *)
  | PostSensor (device : string) (time : Z) (kind : string) (reading : payload).

(** The calls handed to the reporting back end, logging left out. *)
Definition is_report (e : event) : bool :=
  match e with Log _ => false | _ => true end.

Definition reports (evs : list event) : list event := filter (λ e, is_report e = true) evs.

(** [process_image] *)
Definition process_image (now : Z) (image_data : payload) (md : option metadata)
    (p : processor) : bool * processor :=
  if (max_queue_size p <=? length (processing_queue p))%nat then (false, p)
  else (true,
        set_queue (processing_queue p
                   ++ [mk_item "image" image_data (default no_metadata md) now]) p).

(** [process_data] *)
Definition process_data (now : Z) (d : payload) (data_type : string)
    (md : option metadata) (p : processor) : bool * processor :=
  if (max_queue_size p <=? length (processing_queue p))%nat then (false, p)
  else (true,
        set_queue (processing_queue p
                   ++ [mk_item data_type d (default no_metadata md) now]) p).

(** The [for (x, y, w, h) in faces] loop of [_process_image_data]: empty
    regions are skipped, the first other one is sent (or its encoding
    raises) and the loop ends. *)
Fixpoint send_first_face (faces : list face) (md : metadata) (p : processor)
  : list event :=
  match faces with
  | [] => []
  | f :: rest =>
      if (region_size f =? 0)%nat then send_first_face rest md p
      else match face_jpeg f with
           | Some b64 => [PostFace b64 (device_id p) (default "" (location md))]
           | None => [Log error]
           end
  end.

(** [_process_image_data] *)
Definition _process_image_data (image_data : payload) (md : metadata)
    (p : processor) : processor * list event :=
  if negb (face_detector p) then (p, [])
  else match image_data with
       | ImageData (Some faces) => (p, send_first_face faces md p)
       | _ => (p, [Log error])
       end.

(** [if not user_id]: a missing key and the empty string are both falsy. *)
Definition truthy_id (u : option string) : option string :=
  match u with
  | Some s => if decide (s = "") then None else Some s
  | None => None
  end.

(** [_process_attendance_data] *)
Definition _process_attendance_data (d : payload) (md : metadata) (ts : Z)
    (p : processor) : processor * list event :=
  match d with
  | AttendanceData a =>
      match truthy_id (user_id a) with
      | None => (p, [Log warning])
      | Some uid =>
          let duplicate :=
            match last_attendance_time p !! uid with
            | Some last_time =>
                total_seconds_lt (ts - last_time) (min_attendance_interval p)
            | None => false
            end in
          if duplicate then (p, [Log info])
          else
            (set_last_attendance_time (<[uid := ts]> (last_attendance_time p)) p,
             [PostAttendance uid (device_id p) ts
                (default "manual" (verification_method a))
                (default "" (location md))
                (default "present" (att_status a))])
      end
  | _ => (p, [Log error])      (* data.get raises, caught by the except *)
  end.

(** [_process_sensor_data] *)
Definition _process_sensor_data (d : payload) (md : metadata) (ts : Z)
    (p : processor) : processor * list event :=
  if report_to_backend md
  then (p, [Log debug;
            PostSensor (device_id p) ts (default "unknown" (sensor_type md)) d])
  else (p, [Log debug]).

(** [_process_item] *)
Definition _process_item (it : item) (p : processor) : processor * list event :=
  if decide (item_type it = "image") then
    _process_image_data (data it) (item_metadata it) p
  else if decide (item_type it = "attendance") then
    _process_attendance_data (data it) (item_metadata it) (timestamp it) p
  else if decide (item_type it = "sensor") then
    _process_sensor_data (data it) (item_metadata it) (timestamp it) p
  else (p, [Log warning]).

(** One turn of [_processing_loop]: pop the head and process it, or idle. *)
Definition processing_loop_turn (p : processor) : processor * list event :=
  match processing_queue p with
  | it :: rest => _process_item it (set_queue rest p)
  | [] => (p, [])
  end.

(** [_processing_loop] run for a number of turns. *)
Fixpoint _processing_loop (turns : nat) (p : processor) : processor * list event :=
  match turns with
  | O => (p, [])
  | S n =>
      let r := processing_loop_turn p in
      let r' := _processing_loop n r.1 in
      (r'.1, r.2 ++ r'.2)
  end.

(** Calls that change the processor. *)
Inductive op :=
  | ProcessImage (now : Z) (image_data : payload) (md : option metadata)
  | ProcessData (now : Z) (d : payload) (data_type : string) (md : option metadata)
  | LoopTurn.

Definition step (o : op) (p : processor) : processor :=
  match o with
  | ProcessImage now d md => (process_image now d md p).2
  | ProcessData now d ty md => (process_data now d ty md p).2
  | LoopTurn => (processing_loop_turn p).1
  end.

Inductive reachable (id : string) (detector : bool) : processor → Prop :=
  | reachable_init : reachable id detector (init id detector)
  | reachable_step o p : reachable id detector p → reachable id detector (step o p).

(** Process a list of items one after the other, as the single consumer
    does, collecting the events. *)
Fixpoint process_all (its : list item) (p : processor) : processor * list event :=
  match its with
  | [] => (p, [])
  | it :: rest =>
      let r := _process_item it p in
      let r' := process_all rest r.1 in
      (r'.1, r.2 ++ r'.2)
  end.

(** The times of the attendance reports made for subject [uid]. *)
Definition attendance_times (uid : string) (evs : list event) : list Z :=
  omap (λ e, match e with
             | PostAttendance u _ t _ _ _ => if decide (u = uid) then Some t else None
             | _ => None
             end) evs.

(** Consecutive times at least [w] apart. *)
Fixpoint spaced (w : Z) (ts : list Z) : Prop :=
  match ts with
  | t1 :: rest =>
      match rest with
      | t2 :: _ => w ≤ t2 - t1 ∧ spaced w rest
      | [] => True
      end
  | [] => True
  end.

(** An attendance item that carries the subject [uid]. *)
Definition concerns (uid : string) (it : item) : bool :=
  bool_decide (item_type it = "attendance")
  && match data it with
     | AttendanceData a => bool_decide (truthy_id (user_id a) = Some uid)
     | _ => false
     end.

Definition is_report_for (uid : string) (e : event) : bool :=
  match e with
  | PostAttendance u _ _ _ _ _ => bool_decide (u = uid)
  | _ => false
  end.

(** The attendance reports made for subject [uid]. *)
Definition reports_for (uid : string) (evs : list event) : list event :=
  filter (λ e, is_report_for uid e = true) evs.

(** The second half of the dedup property read literally, for any state
    the processor can be in: two attendance items for one subject at the head
    of the queue, more than the window apart, are both reported. *)
Definition spaced_items_both_forwarded : Prop :=
  ∀ id detector p uid a1 a2 (md1 md2 : metadata) t1 t2 rest,
    reachable id detector p →
    truthy_id (user_id a1) = Some uid →
    truthy_id (user_id a2) = Some uid →
    processing_queue p
    = mk_item "attendance" (AttendanceData a1) md1 t1
      :: mk_item "attendance" (AttendanceData a2) md2 t2 :: rest →
    usec (min_attendance_interval p) < t2 - t1 →
    reports (_processing_loop 2 p).2
    = [PostAttendance uid (device_id p) t1
         (default "manual" (verification_method a1))
         (default "" (location md1))
         (default "present" (att_status a1));
       PostAttendance uid (device_id p) t2
         (default "manual" (verification_method a2))
         (default "" (location md2))
         (default "present" (att_status a2))].

End DataProcessor.

(* ===================================================================== *)
(** * MQTTClient (mqtt-client.py)                                         *)
(* ===================================================================== *)
Module MQTTClient.

(** Python's [s.split(sep)] for a one-character separator: always at least
    one token, empty tokens kept. *)
Fixpoint split (sep : ascii) (s : string) : list string :=
  match s with
  | EmptyString => [EmptyString]
  | String c rest =>
      if decide (c = sep) then EmptyString :: split sep rest
      else match split sep rest with
           | tok :: toks => String c tok :: toks
           | [] => [String c EmptyString]
           end
  end.

Definition slash : ascii := "/"%char.

(** The [for i, sub_part in enumerate(sub_parts)] loop of
    [_topic_matches], from index [i] on.  [None] stands for an
    [IndexError] at [topic_parts[i]]. *)
Fixpoint match_parts (i : nat) (sub_parts topic_parts : list string)
  : option bool :=
  match sub_parts with
  | [] => Some true
  | sub_part :: rest =>
      if decide (sub_part = "#") then Some true
      else if decide (sub_part = "+") then match_parts (S i) rest topic_parts
      else if (length topic_parts <=? i)%nat then Some false
      else match topic_parts !! i with
           | None => None
           | Some topic_part =>
               if decide (sub_part ≠ topic_part) then Some false
               else match_parts (S i) rest topic_parts
           end
  end.

(** [_topic_matches] on the two token lists. *)
Definition parts_match (sub_parts topic_parts : list string) : option bool :=
  if bool_decide (length sub_parts ≠ length topic_parts)
     && negb (bool_decide ("#" ∈ sub_parts))
  then Some false
  else match_parts 0 sub_parts topic_parts.

(** [_topic_matches] *)
Definition _topic_matches (subscription topic : string) : option bool :=
  parts_match (split slash subscription) (split slash topic).

(** A decoded JSON value, as far as truthiness and string comparison go. *)
Inductive jvalue :=
  | JNull
  | JBool (b : bool)
  | JNum (n : Z)
  | JStr (s : string)
  | JCompound (empty : bool).        (* a list or an object *)

#[global] Instance jvalue_eq_dec : EqDecision jvalue.
Proof. solve_decision. Defined.

Definition truthy (v : jvalue) : bool :=
  match v with
  | JNull => false
  | JBool b => b
  | JNum n => negb (bool_decide (n = 0))
  | JStr s => negb (bool_decide (s = ""))
  | JCompound empty => negb empty
  end.

(** A decoded control message: [data.get('command')] and
    [data.get('config', {})]; [None] is a missing key. *)
Record control_data := mk_control_data {
  command : option jvalue;
  config : option jvalue
}.

(** Messages this client publishes. *)
Inductive message :=
  | Ack (cmd : string) (stat : option string) (time : Z)
  | Heartbeat (time : Z) (uptime : Z)
  | Text (s : string).

Inductive level := debug | info | warning | error.

Definition handler := nat.

Inductive event :=
  | Log (l : level)
  | Publish (topic : string) (m : message)          (* self.client.publish *)
  | Invoke (h : handler) (topic payload : string)   (* callback(topic, payload) *)
  | StartRestart                                    (* thread on _handle_restart *)
  | ConfigUpdate (cfg : jvalue).                    (* _handle_config_update *)

(** Return code of the transport's publish. *)
Inductive transport := rc_success | rc_failure | transport_raises.

Record client := mk_client {
  device_id : string;
  is_connected : bool;
  message_callbacks : list (string * handler)   (* dict, in insertion order *)
}.

Definition control_topic (c : client) : string :=
  "devices/" +:+ device_id c +:+ "/control".

Definition ack_topic (c : client) : string :=
  "devices/" +:+ device_id c +:+ "/control/ack".

(** [d[k]] lookup and [d[k] = v] on an insertion-ordered dict. *)
Fixpoint dict_get {A} (k : string) (d : list (string * A)) : option A :=
  match d with
  | [] => None
  | (k', v) :: rest => if decide (k' = k) then Some v else dict_get k rest
  end.

Fixpoint dict_set {A} (k : string) (v : A) (d : list (string * A))
  : list (string * A) :=
  match d with
  | [] => [(k, v)]
  | (k', v') :: rest =>
      if decide (k' = k) then (k, v) :: rest else (k', v') :: dict_set k v rest
  end.

Fixpoint dict_del {A} (k : string) (d : list (string * A)) : list (string * A) :=
  match d with
  | [] => []
  | (k', v') :: rest =>
      if decide (k' = k) then rest else (k', v') :: dict_del k rest
  end.

(** [publish] *)
Definition publish (tr : transport) (topic : string) (m : message) (c : client)
  : bool * list event :=
  if negb (is_connected c) then (false, [Log warning])
  else match tr with
       | rc_success => (true, [Publish topic m])
       | rc_failure => (false, [Publish topic m; Log error])
       | transport_raises => (false, [Publish topic m; Log error])
       end.

(** [subscribe] and [unsubscribe]; [ok] is whether the transport call
    returned [MQTT_ERR_SUCCESS]. *)
Definition subscribe (ok : bool) (topic : string) (h : handler) (c : client)
  : bool * client :=
  if negb (is_connected c) then (false, c)
  else if ok
       then (true, mk_client (device_id c) (is_connected c)
                             (dict_set topic h (message_callbacks c)))
       else (false, c).

Definition unsubscribe (ok : bool) (topic : string) (c : client) : bool * client :=
  if negb (is_connected c) then (false, c)
  else if ok
       then (true, mk_client (device_id c) (is_connected c)
                             (dict_del topic (message_callbacks c)))
       else (false, c).

Section Handlers.

(** [json.loads] followed by the [.get] calls: [None] when the payload is
    not JSON or not a JSON object. *)
Variable json_loads : string → option control_data.

(** [_handle_control_message] *)
Definition _handle_control_message (tr : transport) (now : Z) (payload : string)
    (c : client) : list event :=
  match json_loads payload with
  | None => [Log error]
  | Some d =>
      match command d with
      | None => [Log warning]
      | Some cmd =>
          if negb (truthy cmd) then [Log warning]
          else if decide (cmd = JStr "restart") then
            Log info
              :: (publish tr (ack_topic c) (Ack "restart" (Some "received") now) c).2
              ++ [StartRestart]
          else if decide (cmd = JStr "config") then
            Log info
              :: ConfigUpdate (default (JCompound true) (config d))
              :: (publish tr (ack_topic c) (Ack "config" (Some "applied") now) c).2
          else if decide (cmd = JStr "ping") then
            Log info :: (publish tr (ack_topic c) (Ack "pong" None now) c).2
          else [Log info; Log warning]
      end
  end.

(** The wildcard scan of [_on_message] over [message_callbacks.items()]. *)
Fixpoint scan_callbacks (cbs : list (string * handler)) (topic payload : string)
  : list event :=
  match cbs with
  | [] => [Log debug]
  | (registered_topic, h) :: rest =>
      match _topic_matches registered_topic topic with
      | None => [Log error]
      | Some true => [Invoke h topic payload]
      | Some false => scan_callbacks rest topic payload
      end
  end.

(** [_on_message]; [payload] is [None] when the bytes are not UTF-8. *)
Definition _on_message (tr : transport) (now : Z) (topic : string)
    (payload : option string) (c : client) : list event :=
  match payload with
  | None => [Log error]
  | Some text =>
      if decide (topic = control_topic c) then
        _handle_control_message tr now text c
      else match dict_get topic (message_callbacks c) with
           | Some h => [Invoke h topic text]
           | None => scan_callbacks (message_callbacks c) topic text
           end
  end.

End Handlers.

(** The commands [_handle_control_message] knows. *)
Definition recognized (cmd : jvalue) : bool :=
  bool_decide (cmd = JStr "restart") || bool_decide (cmd = JStr "config")
  || bool_decide (cmd = JStr "ping").

Definition is_publish (e : event) : bool :=
  match e with Publish _ _ => true | _ => false end.

(** What went out through the transport. *)
Definition published (evs : list event) : list event :=
  filter (λ e, is_publish e = true) evs.

(** A pattern token against a topic token: [+] or the same text. *)
Definition token_ok (sub_part topic_part : string) : Prop :=
  sub_part = "+" ∨ sub_part = topic_part.

(** The claim of C7 as it is written: a pattern with a [#] that is not its
    last token matches a topic only if the two are token for token equal. *)
Definition malformed_only_literal : Prop :=
  ∀ subscription topic pre post,
    split slash subscription = pre ++ "#" :: post → post ≠ [] →
    _topic_matches subscription topic = Some true →
    split slash subscription = split slash topic.

(** The claim of C9 on unknown commands as it is written: a command outside
    the vocabulary is answered with an acknowledgement that carries a status,
    on the reply topic. *)
Definition unknown_command_acknowledged : Prop :=
  ∀ (json_loads : string → option control_data) tr now c text d cmd,
    json_loads text = Some d → command d = Some cmd →
    truthy cmd = true → recognized cmd = false → is_connected c = true →
    ∃ name stat time,
      Publish (ack_topic c) (Ack name (Some stat) time)
      ∈ _on_message json_loads tr now (control_topic c) (Some text) c.

(** A stand-in for the JSON decoder on two payloads. *)
Definition sample_loads (text : string) : option control_data :=
  if decide (text = "ping-request")
  then Some (mk_control_data (Some (JStr "ping")) None)
  else if decide (text = "reboot-request")
       then Some (mk_control_data (Some (JStr "reboot")) None)
       else None.

(** A connected client with one wildcard subscription. *)
Definition sample_client : client :=
  mk_client "dev001" true [("devices/+/status", 1%nat)].

Definition is_invoke (e : event) : bool :=
  match e with Invoke _ _ _ => true | _ => false end.

(** The callbacks that were called. *)
Definition invoked (evs : list event) : list event :=
  filter (λ e, is_invoke e = true) evs.

Definition status_topic (c : client) : string :=
  "devices/" +:+ device_id c +:+ "/status".

(** Calls into the paho client and thread starts made by the connection
    methods, in the order they are made. *)
Inductive call :=
  | CConnect
  | CLoopStart
  | CLoopStop
  | CDisconnect
  | CSubscribe (topic : string) (qos : nat)
  | CPublishStatus (topic status : string) (time : Z) (qos : nat) (retain : bool)
  | CStartHeartbeat
  | CStartReconnect.

Definition set_connected (b : bool) (c : client) : client :=
  mk_client (device_id c) b (message_callbacks c).

(** [_on_connect] *)
Definition _on_connect (rc now : Z) (c : client) : client * list call :=
  if decide (rc = 0)
  then (set_connected true c,
        [CSubscribe (control_topic c) 1;
         CPublishStatus (status_topic c) "online" now 1 true])
  else (set_connected false c, []).

(** [_on_disconnect] *)
Definition _on_disconnect (rc : Z) (c : client) : client * list call :=
  (set_connected false c, if decide (rc = 0) then [] else [CStartReconnect]).

(** A [try] block of transport calls: [raises] is the index of the call
    that raises, if any; the calls up to it are made and the result is
    [False]. *)
Definition run_calls (raises : option nat) (calls : list call) : bool * list call :=
  match raises with
  | Some n => if (n <? length calls)%nat then (false, take (S n) calls)
              else (true, calls)
  | None => (true, calls)
  end.

(** [connect] *)
Definition connect (raises : option nat) (c : client) : bool * list call :=
  run_calls raises [CConnect; CLoopStart; CStartHeartbeat].

(** [disconnect] *)
Definition disconnect (raises : option nat) (now : Z) (c : client)
  : bool * list call :=
  run_calls raises
    ((if is_connected c
      then [CPublishStatus (status_topic c) "offline" now 1 true] else [])
     ++ [CLoopStop; CDisconnect]).

(** [reconnect_delay] and [reconnect_max_delay], in seconds. *)
Definition reconnect_delay : Q := 5.
Definition reconnect_max_delay : Q := 60.

(** [min(delay * 1.5, self.reconnect_max_delay)].  From 5 the products are
    dyadic fractions with few digits, so the floating-point values are these
    rationals. *)
Definition next_delay (delay : Q) : Q :=
  Qmin (delay * (3 # 2)) reconnect_max_delay.

(** [_reconnect_loop]: one entry of [attempts] per turn of the loop, [true]
    when [reconnect()] returns and [false] when it raises; the result is the
    list of sleeps.  The loop also ends when [is_connected] is found set,
    which is the end of [attempts]. *)
Fixpoint _reconnect_loop (delay : Q) (attempts : list bool) : list Q :=
  match attempts with
  | [] => []
  | ok :: later =>
      delay :: (if ok then [] else _reconnect_loop (next_delay delay) later)
  end.

End MQTTClient.

(* ===================================================================== *)
(** * DeviceClient (device-client.py), the part that uses the MQTT client  *)
(* ===================================================================== *)
Module DeviceClient.
Import MQTTClient.

(** The two bound methods handed to [subscribe]. *)
Definition _handle_control_message : handler := 0%nat.
Definition _handle_broadcast_message : handler := 1%nat.

(** [_register_mqtt_handlers]; [None] is [self.mqtt_client] being unset,
    [ok1] and [ok2] are the transport results of the two subscriptions. *)
Definition _register_mqtt_handlers (ok1 ok2 : bool) (mqtt_client : option client)
  : option client :=
  match mqtt_client with
  | None => None
  | Some c =>
      let c1 := (subscribe ok1 (control_topic c) _handle_control_message c).2 in
      Some (subscribe ok2 "devices/broadcast" _handle_broadcast_message c1).2
  end.

End DeviceClient.

(* ===================================================================== *)
(** * DeviceConfig (config.py): values addressed by dotted key paths      *)
(* ===================================================================== *)
Module DeviceConfig.
Import MQTTClient.

(** A configuration value; a dictionary keeps its keys in insertion
    order. *)
Inductive value :=
  | VNone
  | VBool (b : bool)
  | VNum (n : Z)
  | VStr (s : string)
  | VList (items : list value)
  | VDict (entries : list (string * value)).

Definition dot : ascii := "."%char.

(** The [for part in parts] loop of [get]: [None] when the walk ends in
    [return default], because a key is missing, a value is [None], or a
    value on the way is not a dictionary and [.get] raises. *)
Fixpoint get_path (parts : list string) (v : value) : option value :=
  match parts with
  | [] => Some v
  | part :: rest =>
      match v with
      | VDict entries =>
          match dict_get part entries with
          | None | Some VNone => None
          | Some v' => get_path rest v'
          end
      | _ => None
      end
  end.

(** [get] *)
Definition get (key : string) (default : value) (config : list (string * value))
  : value :=
  from_option id default (get_path (split dot key) (VDict config)).

(** The body of [set] on the key parts: the dictionary after whatever was
    assigned, and whether the end was reached without an exception.  A
    missing key on the way gets a fresh dictionary; a value on the way that
    is not a dictionary makes the next step raise. *)
Fixpoint set_path (parts : list string) (v : value) (d : list (string * value))
  : list (string * value) * bool :=
  match parts with
  | [] => (d, false)
  | part :: rest =>
      match rest with
      | [] => (dict_set part v d, true)
      | _ :: _ =>
          match dict_get part d with
          | None =>
              let r := set_path rest v [] in (dict_set part (VDict r.1) d, r.2)
          | Some (VDict sub) =>
              let r := set_path rest v sub in (dict_set part (VDict r.1) d, r.2)
          | Some _ => (d, false)
          end
      end
  end.

(** [set]: the configuration afterwards and the result. *)
Definition set (key : string) (v : value) (config : list (string * value))
  : list (string * value) * bool :=
  set_path (split dot key) v config.

(** [_update_dict], on the source as a value so that the recursion into a
    nested dictionary is structural: the entries of the source are written
    into the target one after the other; a dictionary is merged into a
    dictionary already under the same key, anything else is assigned. *)
Fixpoint merge_value (source : value) : list (string * value) → list (string * value) :=
  match source with
  | VDict entries =>
      (fix go (entries : list (string * value)) (target : list (string * value)) :=
         match entries with
         | [] => target
         | (key, v) :: rest =>
             go rest
                match v, dict_get key target with
                | VDict _, Some (VDict sub) =>
                    dict_set key (VDict (merge_value v sub)) target
                | _, _ => dict_set key v target
                end
         end) entries
  | _ => λ target, target
  end.

(** [_update_dict] *)
Definition _update_dict (target source : list (string * value))
  : list (string * value) :=
  merge_value (VDict source) target.

(** [update]: a [config_dict] that is not a dictionary makes [.items()]
    raise. *)
Definition update (config_dict : value) (config : list (string * value))
  : list (string * value) * bool :=
  match config_dict with
  | VDict source => (_update_dict config source, true)
  | _ => (config, false)
  end.

End DeviceConfig.

(* ===================================================================== *)
(** * The liveness registry                                               *)
(* ===================================================================== *)
Section RegistryFacts.
Import DeviceManager.
Implicit Types (m : manager) (d : device_info) (id k : string)
  (acc : manager * list string).


Lemma occurrences_app k l1 l2 :
  occurrences k (l1 ++ l2) = (occurrences k l1 + occurrences k l2)%nat.
Proof. unfold occurrences. by rewrite filter_app, length_app. Qed.

Lemma occurrences_single_ne k k1 : k1 ≠ k → occurrences k [k1] = 0%nat.
Proof. intros. unfold occurrences. by rewrite filter_cons_False. Qed.

Lemma occurrences_single_eq k : occurrences k [k] = 1%nat.
Proof. unfold occurrences. by rewrite filter_cons_True. Qed.

(** A loop step leaves every other device alone, and leaves its own device
    alone when the test fails. *)
Lemma sweep_device_untouched timeout now acc k1 d1 k :
  k1 ≠ k ∨ missed_heartbeat timeout now d1 = false →
  let r := sweep_device timeout now acc (k1, d1) in
  devices r.1 !! k = devices acc.1 !! k
  ∧ (k ∈ active_devices r.1 ↔ k ∈ active_devices acc.1)
  ∧ occurrences k r.2 = occurrences k acc.2.
Proof.
  intros H. unfold sweep_device. simpl.
  destruct (missed_heartbeat timeout now d1) eqn:Hm; simpl; [|done].
  destruct H as [Hne|]; [|done].
  rewrite lookup_insert_ne by done. split; [done|].
  split; [rewrite elem_of_difference, elem_of_singleton; naive_solver|].
  rewrite occurrences_app, occurrences_single_ne by done. lia.
Qed.

Lemma sweep_device_marks timeout now acc k d :
  missed_heartbeat timeout now d = true →
  let r := sweep_device timeout now acc (k, d) in
  devices r.1 !! k = Some (set_status offline d)
  ∧ ¬ (k ∈ active_devices r.1)
  ∧ occurrences k r.2 = S (occurrences k acc.2).
Proof.
  intros Hm. unfold sweep_device. simpl. rewrite Hm. simpl.
  rewrite lookup_insert_eq. split; [done|].
  split; [rewrite elem_of_difference, elem_of_singleton; naive_solver|].
  rewrite occurrences_app, occurrences_single_eq. lia.
Qed.

Lemma sweep_fold_untouched timeout now l acc k :
  (∀ d, (k, d) ∈ l → missed_heartbeat timeout now d = false) →
  let r := foldl (sweep_device timeout now) acc l in
  devices r.1 !! k = devices acc.1 !! k
  ∧ (k ∈ active_devices r.1 ↔ k ∈ active_devices acc.1)
  ∧ occurrences k r.2 = occurrences k acc.2.
Proof.
  revert acc. induction l as [|[k1 d1] l IH]; intros acc Hk; simpl; [done|].
  destruct (IH (sweep_device timeout now acc (k1, d1))) as (Hd & Ha & Hc).
  { intros d Hd. apply Hk. by right. }
  destruct (sweep_device_untouched timeout now acc k1 d1 k) as (Hd' & Ha' & Hc').
  { destruct (decide (k1 = k)) as [->|]; [right|by left]. apply Hk. by left. }
  simpl in *. rewrite Hd, Ha, Hc. done.
Qed.

Lemma sweep_fold_marks timeout now l acc k d :
  NoDup l.*1 → (k, d) ∈ l → missed_heartbeat timeout now d = true →
  let r := foldl (sweep_device timeout now) acc l in
  devices r.1 !! k = Some (set_status offline d)
  ∧ ¬ (k ∈ active_devices r.1)
  ∧ occurrences k r.2 = S (occurrences k acc.2).
Proof.
  revert acc. induction l as [|[k1 d1] l IH]; intros acc Hnd Hin Hm; simpl.
  { by apply elem_of_nil in Hin. }
  simpl in Hnd. apply NoDup_cons in Hnd as [Hk1 Hnd].
  apply elem_of_cons in Hin as [Heq|Hin].
  - inversion Heq; subst k1 d1.
    destruct (sweep_fold_untouched timeout now l
                (sweep_device timeout now acc (k, d)) k) as (Hd & Ha & Hc).
    { intros d' Hd'. exfalso. apply Hk1. apply list_elem_of_fmap. by exists (k, d'). }
    destruct (sweep_device_marks timeout now acc k d Hm) as (Hd' & Ha' & Hc').
    simpl in *. rewrite Hd, Ha, Hc. done.
  - destruct (IH (sweep_device timeout now acc (k1, d1)) Hnd Hin Hm) as (Hd & Ha & Hc).
    destruct (sweep_device_untouched timeout now acc k1 d1 k) as (Hd' & Ha' & Hc').
    { left. intros ->. apply Hk1. apply list_elem_of_fmap. by exists (k, d). }
    simpl in *. rewrite Hc, Hc'. done.
Qed.


(** What one locked pass does to a given device. *)
Lemma sweep_locked_lookup timeout now m k :
  devices (sweep_locked timeout now m).1 !! k = swept timeout now <$> (devices m !! k).
Proof.
  unfold sweep_locked, swept.
  destruct (devices m !! k) as [d|] eqn:Hk; simpl.
  - destruct (missed_heartbeat timeout now d) eqn:Hm.
    + apply (sweep_fold_marks timeout now _ (m, []) k d); [|by apply elem_of_map_to_list|done].
      apply NoDup_fst_map_to_list.
    + destruct (sweep_fold_untouched timeout now (map_to_list (devices m)) (m, []) k)
        as (Hd & _).
      { intros d' Hd'. apply elem_of_map_to_list in Hd'. congruence. }
      simpl in Hd. by rewrite Hd.
  - destruct (sweep_fold_untouched timeout now (map_to_list (devices m)) (m, []) k)
      as (Hd & _).
    { intros d' Hd'. apply elem_of_map_to_list in Hd'. congruence. }
    simpl in Hd. by rewrite Hd.
Qed.

Lemma sweep_locked_active timeout now m k :
  k ∈ active_devices (sweep_locked timeout now m).1 ↔
  k ∈ active_devices m
  ∧ ∀ d, devices m !! k = Some d → missed_heartbeat timeout now d = false.
Proof.
  unfold sweep_locked.
  destruct (devices m !! k) as [d|] eqn:Hk.
  - destruct (missed_heartbeat timeout now d) eqn:Hm.
    + destruct (sweep_fold_marks timeout now (map_to_list (devices m)) (m, []) k d)
        as (_ & Ha & _); [apply NoDup_fst_map_to_list|by apply elem_of_map_to_list|done|].
      simpl in Ha. split; [done|]. intros [_ H]. specialize (H d eq_refl). congruence.
    + destruct (sweep_fold_untouched timeout now (map_to_list (devices m)) (m, []) k)
        as (_ & Ha & _).
      { intros d' Hd'. apply elem_of_map_to_list in Hd'. congruence. }
      simpl in Ha. rewrite Ha. split; [|tauto]. intros. split; [done|]. congruence.
  - destruct (sweep_fold_untouched timeout now (map_to_list (devices m)) (m, []) k)
      as (_ & Ha & _).
    { intros d' Hd'. apply elem_of_map_to_list in Hd'. congruence. }
    simpl in Ha. rewrite Ha. split; [|tauto]. intros. split; [done|]. congruence.
Qed.

Lemma sweep_locked_marked timeout now m k :
  occurrences k (sweep_locked timeout now m).2 =
  match devices m !! k with
  | Some d => if missed_heartbeat timeout now d then 1%nat else 0%nat
  | None => 0%nat
  end.
Proof.
  unfold sweep_locked.
  destruct (devices m !! k) as [d|] eqn:Hk.
  - destruct (missed_heartbeat timeout now d) eqn:Hm.
    + destruct (sweep_fold_marks timeout now (map_to_list (devices m)) (m, []) k d)
        as (_ & _ & Hc); [apply NoDup_fst_map_to_list|by apply elem_of_map_to_list|done|].
      done.
    + destruct (sweep_fold_untouched timeout now (map_to_list (devices m)) (m, []) k)
        as (_ & _ & Hc).
      { intros d' Hd'. apply elem_of_map_to_list in Hd'. congruence. }
      done.
  - destruct (sweep_fold_untouched timeout now (map_to_list (devices m)) (m, []) k)
      as (_ & _ & Hc).
    { intros d' Hd'. apply elem_of_map_to_list in Hd'. congruence. }
    done.
Qed.

Lemma register_device_consistent now now_conn id ip m :
  consistent m → consistent (register_device now now_conn id ip m).2.
Proof.
  intros Hc k. simpl. rewrite elem_of_union, elem_of_singleton.
  destruct (decide (id = k)) as [->|Hne].
  - rewrite lookup_insert_eq. split; [eauto|by left].
  - rewrite lookup_insert_ne by done. rewrite (Hc k). naive_solver.
Qed.

Lemma unregister_device_consistent id m :
  consistent m → consistent (unregister_device id m).2.
Proof.
  intros Hc k. unfold unregister_device.
  destruct (devices m !! id) as [d|] eqn:Hid; simpl; [|apply Hc].
  rewrite elem_of_difference, elem_of_singleton.
  destruct (decide (id = k)) as [->|Hne].
  - rewrite lookup_delete_eq. naive_solver.
  - rewrite lookup_delete_ne by done. rewrite (Hc k). naive_solver.
Qed.

Lemma update_device_heartbeat_consistent db now id m :
  consistent m → consistent (update_device_heartbeat db now id m).1.2.
Proof.
  intros Hc k. unfold update_device_heartbeat.
  destruct (devices m !! id) as [d|] eqn:Hid; simpl; [|apply Hc].
  rewrite elem_of_union, elem_of_singleton.
  destruct (decide (id = k)) as [->|Hne].
  - rewrite lookup_insert_eq. split; [eauto|by left].
  - rewrite lookup_insert_ne by done. rewrite (Hc k). naive_solver.
Qed.

Lemma sweep_device_consistent timeout now acc entry :
  consistent acc.1 → consistent (sweep_device timeout now acc entry).1.
Proof.
  intros Hc k. unfold sweep_device.
  destruct (missed_heartbeat timeout now entry.2); simpl; [|apply Hc].
  rewrite elem_of_difference, elem_of_singleton.
  destruct (decide (entry.1 = k)) as [<-|Hne].
  - rewrite lookup_insert_eq. split; [naive_solver|].
    intros (d & Hd & Hs). by inversion Hd; subst d.
  - rewrite lookup_insert_ne by done. rewrite (Hc k). naive_solver.
Qed.

Lemma sweep_fold_consistent timeout now l acc :
  consistent acc.1 → consistent (foldl (sweep_device timeout now) acc l).1.
Proof.
  revert acc. induction l as [|e l IH]; intros acc Hc; simpl; [done|].
  by apply IH, sweep_device_consistent.
Qed.

Lemma step_consistent timeout o m :
  consistent m → consistent (step timeout o m).1.
Proof.
  intros Hc. destruct o; simpl.
  - by apply register_device_consistent.
  - by apply unregister_device_consistent.
  - by apply update_device_heartbeat_consistent.
  - by apply sweep_fold_consistent.
Qed.

Lemma init_consistent : consistent init.
Proof.
  intros k. simpl. rewrite elem_of_empty. split; [done|].
  intros (d & Hd & _). by rewrite lookup_empty in Hd.
Qed.

(** The sweep loop is a run of [Sweep] calls. *)
Lemma monitor_heartbeats_run timeout ticks m :
  _monitor_heartbeats timeout ticks m
  = run timeout ((λ t, Sweep t.2 t.1) <$> ticks) m.
Proof.
  revert m. induction ticks as [|[now db] ticks IH]; intros m; [done|].
  rewrite fmap_cons. cbn [_monitor_heartbeats run step fst snd].
  by rewrite IH.
Qed.

(** C3: the active set and the device map agree in the initial registry,
    every registry call (register, heartbeat, unregister, a whole sweep
    pass) and every single transition inside a sweep keeps them in
    agreement, and so they agree in every reachable registry: a device is in
    [active_devices] exactly when it has a record whose status is active. *)
Theorem registry_views_agree timeout :
  consistent init
  ∧ (∀ o m, consistent m → consistent (step timeout o m).1)
  ∧ (∀ now acc entry,
        consistent acc.1 → consistent (sweep_device timeout now acc entry).1)
  ∧ (∀ m, reachable timeout m → consistent m).
Proof.
  split; [apply init_consistent|].
  split; [intros; by apply step_consistent|].
  split; [intros; by apply sweep_device_consistent|].
  induction 1; [apply init_consistent|by apply step_consistent].
Qed.

Lemma registry_views_agree_witness :
  consistent (step heartbeat_timeout (Unregister "cam2") three_cameras).1.
Proof.
  apply (proj1 (proj2 (registry_views_agree heartbeat_timeout))).
  unfold three_cameras. repeat apply register_device_consistent.
  apply init_consistent.
Defined.




Lemma transitions_app id evs1 evs2 :
  transitions id (evs1 ++ evs2) = (transitions id evs1 + transitions id evs2)%nat.
Proof. unfold transitions. by rewrite filter_app, length_app. Qed.

Lemma transitions_db_sync id db id' s : transitions id (db_sync db id' s) = 0%nat.
Proof.
  destruct db; unfold transitions, db_sync; [|done|];
    by rewrite filter_cons_False by done.
Qed.

Lemma transitions_marked id (l : list string) :
  transitions id (EvMarkedOffline <$> l) = occurrences id l.
Proof.
  unfold transitions, occurrences. induction l as [|x l IH]; [done|].
  rewrite fmap_cons. destruct (decide (x = id)) as [->|Hne].
  - rewrite !filter_cons_True by done. simpl. by rewrite IH.
  - rewrite !filter_cons_False; [done|done|congruence].
Qed.

Lemma transitions_db_phase id (db : string → db_result) (l : list string) :
  transitions id (l ≫= λ k, db_sync (db k) k offline) = 0%nat.
Proof.
  induction l as [|x l IH]; [done|].
  rewrite bind_cons, transitions_app, transitions_db_sync, IH. done.
Qed.

Lemma transitions_pass timeout db now m id :
  transitions id (monitor_heartbeats_pass timeout db now m).2
  = occurrences id (sweep_locked timeout now m).2.
Proof.
  unfold monitor_heartbeats_pass. simpl.
  rewrite transitions_app, transitions_marked, transitions_db_phase. lia.
Qed.

(** What a call that does not name [id] does to [id]. *)
Lemma step_other timeout o m id :
  mentions id o = false →
  devices (step timeout o m).1 !! id
  = (match o with Sweep _ now => fmap (swept timeout now) | _ => λ x, x end)
      (devices m !! id)
  ∧ (id ∈ active_devices (step timeout o m).1 →  id ∈ active_devices m)
  ∧ transitions id (step timeout o m).2
    = match o with
      | Sweep _ now => occurrences id (sweep_locked timeout now m).2
      | _ => 0%nat
      end.
Proof.
  intros Hm. destruct o as [now nc id' ip|id'|db now id'|db now]; simpl in *.
  - apply bool_decide_eq_false in Hm. rewrite lookup_insert_ne by done.
    split; [done|]. split; [|done].
    rewrite elem_of_union, elem_of_singleton. intros [?|?]; congruence.
  - apply bool_decide_eq_false in Hm. unfold unregister_device.
    destruct (devices m !! id'); simpl; [|done].
    rewrite lookup_delete_ne by done. split; [done|]. split; [|done].
    rewrite elem_of_difference. tauto.
  - apply bool_decide_eq_false in Hm. unfold update_device_heartbeat.
    destruct (devices m !! id'); simpl; [|done].
    rewrite lookup_insert_ne by done. split; [done|].
    split; [|apply transitions_db_sync].
    rewrite elem_of_union, elem_of_singleton. intros [?|?]; congruence.
  - split; [apply sweep_locked_lookup|]. split; [|apply transitions_pass].
    intros H. by apply sweep_locked_active in H as [? _].
Qed.

Lemma run_cons timeout o ops m :
  run timeout (o :: ops) m
  = ((run timeout ops (step timeout o m).1).1,
     (step timeout o m).2 ++ (run timeout ops (step timeout o m).1).2).
Proof. done. Qed.

Lemma run_offline_stays timeout ops m id d :
  devices m !! id = Some d → dev_status d = offline → id ∉ active_devices m →
  Forall (λ o, mentions id o = false) ops →
  devices (run timeout ops m).1 !! id = Some d
  ∧ (id ∉ active_devices (run timeout ops m).1)
  ∧ transitions id (run timeout ops m).2 = 0%nat.
Proof.
  revert m. induction ops as [|o ops IH]; intros m Hd Hs Ha Hops; [done|].
  rewrite run_cons. cbn [fst snd].
  apply Forall_cons in Hops as [Ho Hops].
  destruct (step_other timeout o m id Ho) as (Hl & Hact & Ht).
  assert (devices (step timeout o m).1 !! id = Some d
          ∧ transitions id (step timeout o m).2 = 0%nat) as [Hl' Ht'].
  { rewrite Hl, Ht. destruct o; try done.
    rewrite sweep_locked_marked, Hd. simpl. unfold swept, missed_heartbeat.
    rewrite Hs. simpl. by rewrite andb_false_r. }
  destruct (IH (step timeout o m).1 Hl' Hs ltac:(tauto) Hops) as (? & ? & Hz).
  rewrite transitions_app, Ht', Hz. done.
Qed.

Lemma run_active_device timeout ops m id d :
  devices m !! id = Some d → dev_status d = active →
  Forall (λ o, mentions id o = false) ops →
  let r := run timeout ops m in
  if existsb (late_sweep timeout (last_heartbeat d)) ops
  then devices r.1 !! id = Some (set_status offline d)
       ∧ (id ∉ active_devices r.1) ∧ transitions id r.2 = 1%nat
  else devices r.1 !! id = Some d ∧ transitions id r.2 = 0%nat.
Proof.
  revert m. induction ops as [|o ops IH]; intros m Hd Hs Hops; [done|].
  rewrite run_cons. cbn [fst snd existsb].
  apply Forall_cons in Hops as [Ho Hops].
  destruct (step_other timeout o m id Ho) as (Hl & Hact & Ht).
  destruct (late_sweep timeout (last_heartbeat d) o) eqn:Hlate; cbn [orb].
  - destruct o as [| | |db now]; try done. simpl in Hlate.
    assert (missed_heartbeat timeout now d = true) as Hmiss.
    { unfold missed_heartbeat. rewrite Hlate, Hs. done. }
    rewrite sweep_locked_marked, Hd, Hmiss in Ht.
    rewrite Hd in Hl. simpl in Hl. unfold swept in Hl. rewrite Hmiss in Hl.
    assert (id ∉ active_devices (step timeout (Sweep db now) m).1) as Hna.
    { cbn [step monitor_heartbeats_pass fst]. rewrite sweep_locked_active.
      intros [_ H]. specialize (H d Hd). congruence. }
    destruct (run_offline_stays timeout ops (step timeout (Sweep db now) m).1 id _
                Hl eq_refl Hna Hops) as (? & ? & Hz).
    rewrite transitions_app, Ht, Hz. done.
  - assert (devices (step timeout o m).1 !! id = Some d
            ∧ transitions id (step timeout o m).2 = 0%nat) as [Hl' Ht'].
    { rewrite Hl, Ht. destruct o as [| | |db now]; try done. simpl in Hlate.
      rewrite sweep_locked_marked, Hd. simpl. unfold swept, missed_heartbeat.
      rewrite Hlate. done. }
    specialize (IH (step timeout o m).1 Hl' Hs Hops). simpl in IH.
    destruct (existsb (late_sweep timeout (last_heartbeat d)) ops).
    + destruct IH as (? & ? & Hone). rewrite transitions_app, Ht', Hone. done.
    + destruct IH as (? & Hz). rewrite transitions_app, Ht', Hz. done.
Qed.

Lemma get_device_status_lookup id m d :
  devices m !! id = Some d → get_device_status id m = status_name (dev_status d).
Proof. intros H. unfold get_device_status. by rewrite H. Qed.

Lemma Exists_existsb {A} (f : A → bool) (l : list A) :
  Exists (λ x, f x = true) l → existsb f l = true.
Proof.
  induction 1 as [x l Hx|x l _ IH]; simpl.
  - by rewrite Hx.
  - rewrite IH. apply orb_true_r.
Qed.


(** C1, as amended: a device registered at [T] that no later call names (no
    heartbeat, re-registration or unregistration) goes from active to
    offline exactly once over any run of registry calls that contains a sweep
    later than [T + timeout], and is offline and out of the active set at the
    end; a heartbeat no older than [timeout] at the time of the sweep keeps it
    active; and a sweep never adds or removes a record, it only rewrites the
    status of the records it finds. *)
Theorem sweep_marks_stale_device_once timeout m0 T Tc id ip :
  let m1 := (register_device T Tc id ip m0).2 in
  get_device_status id m1 = "active"
  ∧ (∀ ops,
        Forall (λ o, mentions id o = false) ops →
        Exists (λ o, late_sweep timeout T o = true) ops →
        get_device_status id (run timeout ops m1).1 = "offline"
        ∧ (id ∉ active_devices (run timeout ops m1).1)
        ∧ transitions id (run timeout ops m1).2 = 1%nat)
  ∧ (∀ db dbs h now,
        now - h ≤ usec timeout →
        let m2 := (update_device_heartbeat db h id m1).1.2 in
        let r := monitor_heartbeats_pass timeout dbs now m2 in
        get_device_status id r.1 = "active"
        ∧ id ∈ active_devices r.1
        ∧ transitions id r.2 = 0%nat)
  ∧ (∀ m dbs now k,
        devices (monitor_heartbeats_pass timeout dbs now m).1 !! k
        = swept timeout now <$> (devices m !! k)).
Proof.
  intros m1.
  assert (devices m1 !! id = Some (mk_device_info id ip active T Tc "mqtt")) as Hreg.
  { unfold m1. simpl. apply lookup_insert_eq. }
  split; [by rewrite (get_device_status_lookup _ _ _ Hreg)|].
  split; [|split].
  - intros ops Hops Hlate.
    pose proof (run_active_device timeout ops m1 id _ Hreg eq_refl Hops) as H.
    simpl in H. rewrite (Exists_existsb _ _ Hlate) in H.
    destruct H as (Hl & Ha & Ht).
    by rewrite (get_device_status_lookup _ _ _ Hl).
  - intros db dbs h now Hfresh m2 r.
    set (d2 := mk_device_info id ip active h Tc "mqtt").
    assert (devices m2 !! id = Some d2) as H2.
    { unfold m2, update_device_heartbeat. rewrite Hreg. simpl. apply lookup_insert_eq. }
    assert (id ∈ active_devices m2) as Ha2.
    { unfold m2, update_device_heartbeat. rewrite Hreg. simpl.
      apply elem_of_union. left. by apply elem_of_singleton. }
    assert (missed_heartbeat timeout now d2 = false) as Hmiss.
    { unfold missed_heartbeat, total_seconds_gt. simpl.
      rewrite bool_decide_eq_false_2 by lia. done. }
    split; [|split].
    + unfold r, monitor_heartbeats_pass. cbn [fst].
      rewrite (get_device_status_lookup _ _ d2); [done|].
      rewrite sweep_locked_lookup, H2. simpl. unfold swept. by rewrite Hmiss.
    + unfold r, monitor_heartbeats_pass. cbn [fst].
      apply sweep_locked_active. split; [done|]. intros d Hd. congruence.
    + unfold r. rewrite transitions_pass, sweep_locked_marked, H2, Hmiss. done.
  - intros m dbs now k. apply sweep_locked_lookup.
Qed.

Lemma sweep_marks_stale_device_once_witness :
  let m1 := (register_device 0 0 "cam1" "10.0.0.5" init).2 in
  let ops := [Sweep (λ _, db_saved) (usec 301); Sweep (λ _, db_raises) (usec 400)] in
  get_device_status "cam1" (run heartbeat_timeout ops m1).1 = "offline"
  ∧ ("cam1" ∉ active_devices (run heartbeat_timeout ops m1).1)
  ∧ transitions "cam1" (run heartbeat_timeout ops m1).2 = 1%nat.
Proof.
  intros m1 ops.
  apply (proj1 (proj2 (sweep_marks_stale_device_once
                         heartbeat_timeout init 0 0 "cam1" "10.0.0.5")) ops).
  - repeat constructor.
  - left. reflexivity.
Defined.

(** C1 as written fails: register at 0, heartbeat one second later, sweep at
    302 s.  The heartbeat came before the sweep, and the device is marked
    offline all the same, because it is older than the timeout. *)
Lemma heartbeat_before_sweep_not_enough :
  ¬ heartbeat_before_sweep_prevents heartbeat_timeout.
Proof.
  intros H.
  specialize (H init 0 0 "cam1" "10.0.0.5" db_saved (λ _, db_saved)
                (usec 1) (usec 302)).
  cbv zeta in H.
  assert (get_device_status "cam1"
            (monitor_heartbeats_pass heartbeat_timeout (λ _, db_saved) (usec 302)
               (update_device_heartbeat db_saved (usec 1) "cam1"
                  (register_device 0 0 "cam1" "10.0.0.5" init).2).1.2).1
          = "offline") as Hoff by (vm_compute; reflexivity).
  rewrite Hoff in H. unfold usec, heartbeat_timeout in H.
  specialize (H ltac:(lia) ltac:(lia) ltac:(lia)). discriminate H.
Qed.




Lemma update_device_heartbeat_known db now id m d :
  devices m !! id = Some d →
  update_device_heartbeat db now id m
  = (true,
     mk_manager (<[id := set_status active (set_last_heartbeat now d)]> (devices m))
                ({[id]} ∪ active_devices m),
     db_sync db id active).
Proof. intros H. unfold update_device_heartbeat. by rewrite H. Qed.

Lemma heartbeats_trace id calls m d :
  devices m !! id = Some d →
  Forall (λ r, r.1 = true ∧ get_device_status id r.2 = "active"
               ∧ id ∈ active_devices r.2) (heartbeats id calls m)
  ∧ last_heartbeat_of id <$> (snd <$> heartbeats id calls m) = calls.*2.
Proof.
  revert m d. induction calls as [|[db now] calls IH]; intros m d Hd.
  { split; [constructor|done]. }
  cbn [heartbeats]. rewrite (update_device_heartbeat_known _ _ _ _ _ Hd). cbn [fst snd].
  set (m' := mk_manager _ _).
  assert (devices m' !! id = Some (set_status active (set_last_heartbeat now d))) as Hd'.
  { apply lookup_insert_eq. }
  destruct (IH m' _ Hd') as [HF Hmap].
  split.
  - constructor; [|done]. cbn [fst snd]. split; [done|].
    split; [by rewrite (get_device_status_lookup _ _ _ Hd')|].
    apply elem_of_union. left. by apply elem_of_singleton.
  - rewrite !fmap_cons. cbn [fst snd]. f_equal; [|done].
    unfold last_heartbeat_of. by rewrite Hd'.
Qed.

(** C2: a heartbeat call returns true exactly when the device has a record;
    a successful call leaves the record active, in the active set and
    stamped with the time of the call; neither the result nor the registry
    depends on how the database update went; and over any sequence of
    heartbeat calls on a registered device under a non-decreasing clock every
    call succeeds, the device is active after each one and its successive
    last_heartbeat values never decrease. *)
Theorem heartbeat_monotone_and_active :
  (∀ db now id m,
      (update_device_heartbeat db now id m).1.1 = true ↔ is_Some (devices m !! id))
  ∧ (∀ db now id m,
      (update_device_heartbeat db now id m).1.1 = true →
      ∃ d, devices (update_device_heartbeat db now id m).1.2 !! id = Some d
           ∧ dev_status d = active ∧ last_heartbeat d = now
           ∧ id ∈ active_devices (update_device_heartbeat db now id m).1.2)
  ∧ (∀ db db' now id m,
      (update_device_heartbeat db now id m).1
      = (update_device_heartbeat db' now id m).1)
  ∧ (∀ id m d calls,
      devices m !! id = Some d →
      Sorted Z.le (last_heartbeat d :: calls.*2) →
      Forall (λ r, r.1 = true ∧ get_device_status id r.2 = "active"
                   ∧ id ∈ active_devices r.2) (heartbeats id calls m)
      ∧ Sorted Z.le (last_heartbeat_of id m
                     :: (last_heartbeat_of id <$> (snd <$> heartbeats id calls m)))).
Proof.
  split; [|split; [|split]].
  - intros db now id m. unfold update_device_heartbeat.
    destruct (devices m !! id); simpl; split; try done; by intros [? ?].
  - intros db now id m. unfold update_device_heartbeat.
    destruct (devices m !! id) as [d|]; simpl; [|done]. intros _.
    exists (set_status active (set_last_heartbeat now d)).
    rewrite lookup_insert_eq. repeat split.
    apply elem_of_union. left. by apply elem_of_singleton.
  - intros db db' now id m. unfold update_device_heartbeat.
    by destruct (devices m !! id).
  - intros id m d calls Hd Hsorted.
    destruct (heartbeats_trace id calls m d Hd) as [HF Hmap].
    split; [done|]. rewrite Hmap. unfold last_heartbeat_of. by rewrite Hd.
Qed.

Lemma heartbeat_monotone_and_active_witness :
  let m := (register_device 5 5 "cam1" "10.0.0.5" init).2 in
  let calls := [(db_saved, 7); (db_raises, 7); (db_no_document, 12)] in
  Forall (λ r, r.1 = true ∧ get_device_status "cam1" r.2 = "active"
               ∧ "cam1" ∈ active_devices r.2) (heartbeats "cam1" calls m)
  ∧ Sorted Z.le (last_heartbeat_of "cam1" m
                 :: (last_heartbeat_of "cam1" <$> (snd <$> heartbeats "cam1" calls m))).
Proof.
  intros m calls.
  apply (proj2 (proj2 (proj2 heartbeat_monotone_and_active))
           "cam1" m (mk_device_info "cam1" "10.0.0.5" active 5 5 "mqtt") calls).
  - reflexivity.
  - simpl. repeat constructor; lia.
Defined.


Lemma broadcast_fold net message m l (acc : nat * nat * list attempt) :
  (∀ id, id ∈ l → is_Some (devices m !! id)) →
  let r := foldl (broadcast_device net message m) acc l in
  r.1.1 = (acc.1.1 + length (filter (λ id, delivered (net id) = true) l))%nat
  ∧ r.1.2 = (acc.1.2 + length (filter (λ id, delivered (net id) = false) l))%nat
  ∧ att_device <$> r.2 = (att_device <$> acc.2) ++ l
  ∧ (Forall (λ a, ∃ d, devices m !! att_device a = Some d
                       ∧ att_url a = post_url d ∧ att_message a = message) acc.2 →
     Forall (λ a, ∃ d, devices m !! att_device a = Some d
                       ∧ att_url a = post_url d ∧ att_message a = message) r.2).
Proof.
  revert acc. induction l as [|id l IH]; intros acc Hl.
  { simpl. rewrite app_nil_r. repeat split; try lia; done. }
  cbn [foldl].
  destruct (IH (broadcast_device net message m acc id)) as (H1 & H2 & H3 & H4).
  { intros k Hk. apply Hl. by right. }
  destruct (Hl id ltac:(left)) as [d Hd].
  cbv zeta in *. rewrite H1, H2, H3. clear H1 H2 H3.
  unfold broadcast_device, get_device_info in *. rewrite Hd in *.
  destruct (delivered (net id)) eqn:Hdel; cbn [fst snd] in *.
  - rewrite filter_cons_True by done. rewrite filter_cons_False by congruence.
    rewrite fmap_app, <- app_assoc. simpl. repeat split; try lia.
    intros HF. apply H4. apply Forall_app. split; [done|].
    constructor; [|constructor]. by exists d.
  - rewrite filter_cons_False by congruence. rewrite filter_cons_True by done.
    rewrite fmap_app, <- app_assoc. simpl. repeat split; try lia.
    intros HF. apply H4. apply Forall_app. split; [done|].
    constructor; [|constructor]. by exists d.
Qed.

Lemma filter_split_length {A} (f : A → bool) (l : list A) :
  (length (filter (λ x, f x = true) l) + length (filter (λ x, f x = false) l)
   = length l)%nat.
Proof.
  induction l as [|x l IH]; [done|].
  destruct (f x) eqn:Hx.
  - rewrite filter_cons_True by done. rewrite filter_cons_False by congruence.
    simpl. lia.
  - rewrite filter_cons_False by congruence. rewrite filter_cons_True by done.
    simpl. lia.
Qed.

Lemma filter_none_fail {A} (f : A → bool) (l : list A) :
  (∀ x, x ∈ l → f x = true) → filter (λ x, f x = false) l = [].
Proof.
  induction l as [|x l IH]; intros H; [done|].
  rewrite filter_cons_False.
  - apply IH. intros y Hy. apply H. by right.
  - rewrite (H x); [done|by left].
Qed.

Lemma filter_single_length {A} (f : A → bool) (l : list A) (bad : A) :
  NoDup l → bad ∈ l → f bad = false →
  (∀ x, x ∈ l → x ≠ bad → f x = true) →
  length (filter (λ x, f x = false) l) = 1%nat.
Proof.
  induction l as [|x l IH]; intros Hnd Hin Hbad Hrest.
  { by apply elem_of_nil in Hin. }
  apply NoDup_cons in Hnd as [Hx Hnd].
  apply elem_of_cons in Hin as [<-|Hin].
  - rewrite filter_cons_True by done. simpl. f_equal.
    rewrite filter_none_fail; [done|].
    intros y Hy. apply Hrest; [by right|]. intros ->. done.
  - rewrite filter_cons_False.
    + apply IH; try done. intros y Hy. apply Hrest. by right.
    + rewrite (Hrest x); [done|by left|]. intros ->. done.
Qed.

(** C8: on a registry whose two views agree, a broadcast posts once to
    every device of the active set, at that device's address and in the
    order of the snapshot, so none is skipped after a failure and none is
    tried twice; the first count is the number of devices whose post got a
    200, the second the number whose post raised or got another status; the
    two add up to the number of active devices; and with three active devices
    of which exactly one fails the result is (2, 1). *)
Theorem broadcast_counts_every_device net message m :
  consistent m →
  let r := broadcast_message net message m in
  att_device <$> r.2 = elements (active_devices m)
  ∧ NoDup (att_device <$> r.2)
  ∧ Forall (λ a, ∃ d, devices m !! att_device a = Some d
                      ∧ att_url a = post_url d ∧ att_message a = message) r.2
  ∧ r.1.1 = length (filter (λ id, delivered (net id) = true)
                           (elements (active_devices m)))
  ∧ r.1.2 = length (filter (λ id, delivered (net id) = false)
                           (elements (active_devices m)))
  ∧ (r.1.1 + r.1.2)%nat = size (active_devices m)
  ∧ (size (active_devices m) = 3%nat →
     ∀ bad, bad ∈ active_devices m → delivered (net bad) = false →
       (∀ id, id ∈ active_devices m → id ≠ bad → delivered (net id) = true) →
       r.1 = (2%nat, 1%nat)).
Proof.
  intros Hc r.
  destruct (broadcast_fold net message m (elements (active_devices m))
              (0%nat, 0%nat, [])) as (H1 & H2 & H3 & H4).
  { intros id Hid. apply elem_of_elements, Hc in Hid as (d & Hd & _). by exists d. }
  fold (broadcast_message net message m) in H1, H2, H3, H4. fold r in H1, H2, H3, H4.
  cbn [fst snd] in H1, H2, H3. simpl in H3.
  pose proof (filter_split_length (λ id, delivered (net id))
                (elements (active_devices m))) as Hsum.
  split; [done|]. split; [rewrite H3; apply NoDup_elements|].
  split; [apply H4; constructor|].
  split; [done|]. split; [done|].
  split; [rewrite H1, H2; simpl; exact Hsum|].
  intros Hsize bad Hbad Hfail Hothers.
  assert (length (filter (λ id, delivered (net id) = false)
                         (elements (active_devices m))) = 1%nat) as Hone.
  { apply (filter_single_length _ _ bad); [apply NoDup_elements| |done|].
    - by apply elem_of_elements.
    - intros x Hx. apply Hothers. by apply elem_of_elements in Hx. }
  unfold size, set_size in Hsize. simpl in Hsize.
  destruct r as [[s f] posts]. cbn [fst snd] in *. f_equal; lia.
Qed.

Lemma broadcast_counts_every_device_witness :
  (broadcast_message cam2_down "hello" three_cameras).1 = (2%nat, 1%nat).
Proof.
  apply (proj2 (proj2 (proj2 (proj2 (proj2 (proj2
           (broadcast_counts_every_device cam2_down "hello" three_cameras
              ltac:(unfold three_cameras;
                    repeat apply register_device_consistent;
                    apply init_consistent)))))))
         ltac:(vm_compute; reflexivity) "cam2").
  - unfold three_cameras. simpl.
    apply elem_of_union. right. apply elem_of_union. left. by apply elem_of_singleton.
  - reflexivity.
  - unfold three_cameras. simpl. intros id Hid Hne.
    unfold cam2_down. by rewrite decide_False.
Defined.

End RegistryFacts.
(* ===================================================================== *)
(** * The ingestion pipeline                                              *)
(* ===================================================================== *)
Section PipelineFacts.
Import DataProcessor.
Implicit Types (p : processor) (it : item).

Lemma process_image_full now d md p :
  (max_queue_size p ≤ length (processing_queue p))%nat →
  process_image now d md p = (false, p).
Proof.
  intros H. unfold process_image.
  by rewrite (proj2 (Nat.leb_le _ _) H).
Qed.

Lemma process_data_full now d ty md p :
  (max_queue_size p ≤ length (processing_queue p))%nat →
  process_data now d ty md p = (false, p).
Proof.
  intros H. unfold process_data.
  by rewrite (proj2 (Nat.leb_le _ _) H).
Qed.

Lemma process_image_room now d md p :
  (length (processing_queue p) < max_queue_size p)%nat →
  process_image now d md p
  = (true, set_queue (processing_queue p
                      ++ [mk_item "image" d (default no_metadata md) now]) p).
Proof.
  intros H. unfold process_image.
  by rewrite (proj2 (Nat.leb_gt _ _) H).
Qed.

Lemma process_data_room now d ty md p :
  (length (processing_queue p) < max_queue_size p)%nat →
  process_data now d ty md p
  = (true, set_queue (processing_queue p
                      ++ [mk_item ty d (default no_metadata md) now]) p).
Proof.
  intros H. unfold process_data.
  by rewrite (proj2 (Nat.leb_gt _ _) H).
Qed.

(** Processing an item touches neither the queue nor its capacity. *)
Lemma process_item_queue it p :
  processing_queue (_process_item it p).1 = processing_queue p
  ∧ max_queue_size (_process_item it p).1 = max_queue_size p
  ∧ min_attendance_interval (_process_item it p).1 = min_attendance_interval p
  ∧ device_id (_process_item it p).1 = device_id p.
Proof.
  unfold _process_item.
  destruct (decide (item_type it = "image")).
  { unfold _process_image_data. destruct (face_detector p); simpl; [|done].
    by destruct (data it) as [[?|]| |]. }
  destruct (decide (item_type it = "attendance")).
  { unfold _process_attendance_data. destruct (data it) as [|a|]; simpl; try done.
    destruct (truthy_id (user_id a)); simpl; [|done].
    by destruct (match last_attendance_time p !! _ with Some _ => _ | None => _ end). }
  destruct (decide (item_type it = "sensor")); [|done].
  unfold _process_sensor_data. by destruct (report_to_backend _).
Qed.

Lemma step_queue_bound o p :
  (length (processing_queue p) ≤ max_queue_size p)%nat →
  (length (processing_queue (step o p)) ≤ max_queue_size (step o p))%nat
  ∧ max_queue_size (step o p) = max_queue_size p.
Proof.
  intros Hb. destruct o as [now d md|now d ty md|]; simpl.
  - unfold process_image.
    destruct (max_queue_size p <=? length (processing_queue p))%nat eqn:Hfull;
      simpl; [done|].
    apply Nat.leb_gt in Hfull. rewrite length_app. simpl. split; [lia|done].
  - unfold process_data.
    destruct (max_queue_size p <=? length (processing_queue p))%nat eqn:Hfull;
      simpl; [done|].
    apply Nat.leb_gt in Hfull. rewrite length_app. simpl. split; [lia|done].
  - unfold processing_loop_turn.
    destruct (processing_queue p) as [|it rest] eqn:Hq; simpl; [by rewrite Hq|].
    destruct (process_item_queue it (set_queue rest p)) as (-> & -> & _).
    simpl in *. split; [lia|done].
Qed.

(** C4: in every reachable processor the queue holds at most
    [max_queue_size] items and the capacity is the 100 set at start; for any
    capacity, every call keeps the queue within it; an enqueue on a queue
    that holds [max_queue_size] items returns false at once and leaves the
    processor as it was; below capacity it returns true and appends the new
    item at the tail. *)
Theorem queue_never_exceeds_capacity :
  (∀ id detector p,
      reachable id detector p →
      (length (processing_queue p) ≤ max_queue_size p)%nat
      ∧ max_queue_size p = 100%nat)
  ∧ (∀ o p,
      (length (processing_queue p) ≤ max_queue_size p)%nat →
      (length (processing_queue (step o p)) ≤ max_queue_size (step o p))%nat)
  ∧ (∀ now img d ty md p,
      length (processing_queue p) = max_queue_size p →
      process_image now img md p = (false, p)
      ∧ process_data now d ty md p = (false, p))
  ∧ (∀ now img d ty md p,
      (length (processing_queue p) < max_queue_size p)%nat →
      process_image now img md p
      = (true, set_queue (processing_queue p
                          ++ [mk_item "image" img (default no_metadata md) now]) p)
      ∧ process_data now d ty md p
        = (true, set_queue (processing_queue p
                            ++ [mk_item ty d (default no_metadata md) now]) p)).
Proof.
  split; [|split; [|split]].
  - intros id detector p Hr. induction Hr as [|o p Hr [IH1 IH2]].
    + simpl. split; [lia|done].
    + destruct (step_queue_bound o p IH1) as [? Hmax]. split; [done|congruence].
  - intros o p Hb. by apply step_queue_bound.
  - intros now img d ty md p Hfull.
    split; [apply process_image_full|apply process_data_full]; lia.
  - intros now img d ty md p Hroom.
    split; [by apply process_image_room|by apply process_data_room].
Qed.

Lemma queue_never_exceeds_capacity_witness :
  let p := mk_processor "dev001"
             [mk_item "sensor" (RawData "21.5") no_metadata 1;
              mk_item "sensor" (RawData "21.7") no_metadata 2] 2 ∅ 60 false in
  process_image 3 (ImageData None) None p = (false, p)
  ∧ process_data 3 (RawData "22.0") "sensor" None p = (false, p).
Proof.
  intros p.
  apply (proj1 (proj2 (proj2 queue_never_exceeds_capacity))).
  reflexivity.
Defined.

Lemma loop_turn_cons it rest p :
  processing_queue p = it :: rest →
  processing_loop_turn p = _process_item it (set_queue rest p).
Proof. intros H. unfold processing_loop_turn. by rewrite H. Qed.

Lemma processing_loop_two_turns p :
  _processing_loop 2 p
  = ((processing_loop_turn (processing_loop_turn p).1).1,
     (processing_loop_turn p).2 ++ (processing_loop_turn (processing_loop_turn p).1).2).
Proof. simpl. by rewrite app_nil_r. Qed.

Lemma process_attendance_item a (md : metadata) ts p uid :
  truthy_id (user_id a) = Some uid →
  _process_item (mk_item "attendance" (AttendanceData a) md ts) p
  = if match last_attendance_time p !! uid with
       | Some last_time =>
           total_seconds_lt (ts - last_time) (min_attendance_interval p)
       | None => false
       end
    then (p, [Log info])
    else (set_last_attendance_time (<[uid := ts]> (last_attendance_time p)) p,
          [PostAttendance uid (device_id p) ts
             (default "manual" (verification_method a))
             (default "" (location md))
             (default "present" (att_status a))]).
Proof.
  intros Hu. unfold _process_item, _process_attendance_data. simpl.
  by rewrite Hu.
Qed.

Lemma process_attendance_no_subject a (md : metadata) ts p :
  truthy_id (user_id a) = None →
  _process_item (mk_item "attendance" (AttendanceData a) md ts) p
  = (p, [Log warning]).
Proof.
  intros Hu. unfold _process_item, _process_attendance_data. simpl.
  by rewrite Hu.
Qed.

(** C10: an attendance item whose payload has no user_id, or an empty one,
    is dropped with a warning: nothing is reported, the processor (and with
    it the cooldown map) is left exactly as it was, and whatever is processed
    afterwards gives the same reports and the same final state as if the
    item had never been there. *)
Theorem attendance_without_subject_dropped p a (md : metadata) ts :
  user_id a = None ∨ user_id a = Some "" →
  let bad := mk_item "attendance" (AttendanceData a) md ts in
  _process_item bad p = (p, [Log warning])
  ∧ reports (_process_item bad p).2 = []
  ∧ (∀ rest, processing_queue p = bad :: rest →
       reports (processing_loop_turn p).2 = []
       ∧ last_attendance_time (processing_loop_turn p).1 = last_attendance_time p
       ∧ processing_queue (processing_loop_turn p).1 = rest)
  ∧ (∀ its, (process_all (bad :: its) p).1 = (process_all its p).1
            ∧ reports (process_all (bad :: its) p).2
              = reports (process_all its p).2).
Proof.
  intros Hno bad.
  assert (truthy_id (user_id a) = None) as Hu.
  { destruct Hno as [->| ->]; done. }
  assert (∀ q, _process_item bad q = (q, [Log warning])) as Hbad.
  { intros q. by apply process_attendance_no_subject. }
  split; [apply Hbad|]. split; [by rewrite Hbad|]. split.
  - intros rest Hq. rewrite (loop_turn_cons _ _ _ Hq), Hbad. done.
  - intros its. cbn [process_all]. rewrite Hbad. done.
Qed.

Lemma attendance_without_subject_dropped_witness :
  let a := mk_attendance (Some "") (Some "face_recognition") None in
  let p := init "dev001" true in
  _process_item (mk_item "attendance" (AttendanceData a) no_metadata 5) p
  = (p, [Log warning]).
Proof.
  intros a p.
  apply (proj1 (attendance_without_subject_dropped p a no_metadata 5
                  ltac:(right; reflexivity))).
Defined.
End PipelineFacts.

(* ===================================================================== *)
(** * The topic matcher and the control channel                           *)
(* ===================================================================== *)
Section MatcherFacts.
Import MQTTClient.
Implicit Types (sub_parts topic_parts pre post : list string) (i : nat).

(** The loop never indexes past the end of the topic. *)
Lemma match_parts_total i sub_parts topic_parts :
  ∃ b, match_parts i sub_parts topic_parts = Some b.
Proof.
  revert i. induction sub_parts as [|s rest IH]; intros i; simpl; [by eexists|].
  destruct (decide (s = "#")); [by eexists|].
  destruct (decide (s = "+")); [apply IH|].
  destruct (length topic_parts <=? i)%nat eqn:Hlen; [by eexists|].
  apply Nat.leb_gt in Hlen.
  destruct (lookup_lt_is_Some_2 topic_parts i Hlen) as [t ->].
  destruct (decide (s ≠ t)); [by eexists|apply IH].
Qed.

Lemma topic_matches_total subscription topic :
  ∃ b, _topic_matches subscription topic = Some b.
Proof.
  unfold _topic_matches, parts_match.
  destruct (_ && _); [by eexists|apply match_parts_total].
Qed.

(** Without [#], the loop from index [i] succeeds exactly when every
    pattern token has a topic token at its index that it accepts. *)
Lemma match_parts_no_hash i sub_parts topic_parts :
  "#" ∉ sub_parts →
  match_parts i sub_parts topic_parts = Some true →
  ∀ j s, sub_parts !! j = Some s →
         s = "+" ∨ topic_parts !! (i + j)%nat = Some s.
Proof.
  revert i. induction sub_parts as [|s0 rest IH]; intros i Hno Hm j s Hj.
  { by rewrite lookup_nil in Hj. }
  apply not_elem_of_cons in Hno as [Hne Hno]. simpl in Hm.
  rewrite decide_False in Hm by done.
  destruct j as [|j]; simpl in Hj.
  - inversion Hj; subst s0. rewrite Nat.add_0_r.
    destruct (decide (s = "+")); [by left|]. right.
    destruct (length topic_parts <=? i)%nat; [done|].
    destruct (topic_parts !! i) as [t|]; [|done].
    destruct (decide (s ≠ t)) as [|Heq]; [done|].
    f_equal. destruct (decide (s = t)); [done|contradiction].
  - replace (i + S j)%nat with (S i + j)%nat by lia.
    apply IH; [done| |done].
    destruct (decide (s0 = "+")); [done|].
    destruct (length topic_parts <=? i)%nat; [done|].
    destruct (topic_parts !! i) as [t|]; [|done].
    by destruct (decide (s0 ≠ t)).
Qed.

Lemma match_parts_accepts i sub_parts topic_parts :
  (∀ j s, sub_parts !! j = Some s →
          s = "#" ∨ s = "+" ∨ topic_parts !! (i + j)%nat = Some s) →
  match_parts i sub_parts topic_parts = Some true.
Proof.
  revert i. induction sub_parts as [|s0 rest IH]; intros i H; simpl; [done|].
  destruct (decide (s0 = "#")); [done|].
  assert (match_parts (S i) rest topic_parts = Some true) as Hrest.
  { apply IH. intros j s Hj.
    replace (S i + j)%nat with (i + S j)%nat by lia. by apply H. }
  destruct (decide (s0 = "+")); [done|].
  destruct (H 0%nat s0 eq_refl) as [?|[?|Ht]]; [done|done|].
  rewrite Nat.add_0_r in Ht.
  rewrite (proj2 (Nat.leb_gt _ _) (lookup_lt_Some _ _ _ Ht)), Ht.
  by rewrite decide_False by (intros Hc; by apply Hc).
Qed.

(** A [#] is honoured wherever it stands: once the tokens before it are
    accepted, nothing after it is looked at. *)
Lemma match_parts_hash i pre post topic_parts :
  (∀ j s, pre !! j = Some s →
          s = "#" ∨ s = "+" ∨ topic_parts !! (i + j)%nat = Some s) →
  match_parts i (pre ++ "#" :: post) topic_parts = Some true.
Proof.
  revert i. induction pre as [|s0 rest IH]; intros i H; simpl; [done|].
  destruct (decide (s0 = "#")); [done|].
  assert (match_parts (S i) (rest ++ "#" :: post) topic_parts = Some true) as Hrest.
  { apply IH. intros j s Hj.
    replace (S i + j)%nat with (i + S j)%nat by lia. by apply H. }
  destruct (decide (s0 = "+")); [done|].
  destruct (H 0%nat s0 eq_refl) as [?|[?|Ht]]; [done|done|].
  rewrite Nat.add_0_r in Ht.
  rewrite (proj2 (Nat.leb_gt _ _) (lookup_lt_Some _ _ _ Ht)), Ht.
  by rewrite decide_False by (intros Hc; by apply Hc).
Qed.

Lemma Forall2_token_lookup pre tpre tsuffix :
  Forall2 token_ok pre tpre →
  ∀ j s, pre !! j = Some s →
         s = "#" ∨ s = "+" ∨ (tpre ++ tsuffix) !! (0 + j)%nat = Some s.
Proof.
  intros HF j s Hj. simpl.
  destruct (Forall2_lookup_l _ _ _ _ _ HF Hj) as (t & Ht & [Hp|Heq]).
  - right. by left.
  - right. right. subst t. by apply lookup_app_l_Some.
Qed.

(** Without [#] a pattern matches exactly the topics with as many tokens,
    each accepted by the pattern token at its index. *)
Lemma parts_match_no_hash sub_parts topic_parts :
  "#" ∉ sub_parts →
  parts_match sub_parts topic_parts = Some true ↔
  Forall2 token_ok sub_parts topic_parts.
Proof.
  intros Hno. unfold parts_match.
  rewrite (bool_decide_eq_false_2 _ Hno). simpl. rewrite andb_true_r.
  destruct (decide (length sub_parts = length topic_parts)) as [Hlen|Hlen].
  - rewrite bool_decide_eq_false_2 by (intros Hc; by apply Hc). split.
    + intros Hm. apply Forall2_same_length_lookup_2; [done|].
      intros j s t Hs Ht.
      destruct (match_parts_no_hash 0 _ _ Hno Hm j s Hs) as [?|Hl]; [by left|].
      simpl in Hl. right. congruence.
    + intros HF. apply match_parts_accepts. intros j s Hj.
      destruct (Forall2_token_lookup _ _ [] HF j s Hj) as [?|[?|Hl]]; auto.
      rewrite app_nil_r in Hl. auto.
  - rewrite bool_decide_eq_true_2 by done. split; [done|].
    intros HF. apply Forall2_length in HF. contradiction.
Qed.

Lemma token_ok_no_plus sub_parts topic_parts :
  "+" ∉ sub_parts → Forall2 token_ok sub_parts topic_parts →
  sub_parts = topic_parts.
Proof.
  intros Hno HF. induction HF as [|s t l1 l2 Hst _ IH]; [done|].
  destruct Hst as [-> | ->].
  - exfalso. apply Hno. by left.
  - f_equal. apply IH. intros Hin. apply Hno. by right.
Qed.

Lemma token_ok_refl sub_parts : Forall2 token_ok sub_parts sub_parts.
Proof. induction sub_parts; constructor; [by right|done]. Qed.

Lemma hash_prefix_matches subscription topic pre post tpre tsuffix :
  split slash subscription = pre ++ "#" :: post →
  split slash topic = tpre ++ tsuffix →
  Forall2 token_ok pre tpre →
  _topic_matches subscription topic = Some true.
Proof.
  intros Hs Ht HF. unfold _topic_matches, parts_match. rewrite Hs, Ht.
  rewrite (bool_decide_eq_true_2 ("#" ∈ pre ++ "#" :: post)).
  - rewrite andb_false_r. apply match_parts_hash.
    by apply Forall2_token_lookup.
  - apply elem_of_app. right. by left.
Qed.

(** C7, as amended: the matcher returns a boolean on every input; a pattern
    without [#] matches exactly the topics with the same number of tokens
    whose tokens equal the pattern's except under [+], so a pattern with no
    wildcard matches literal equality only; and a [#] is honoured at any
    position, final or not: when the pattern tokens before it accept the
    topic tokens at the same positions the result is true, whatever follows
    the [#] in the pattern and whatever is left of the topic. *)
Theorem hash_honoured_at_any_position :
  (∀ subscription topic, ∃ b, _topic_matches subscription topic = Some b)
  ∧ (∀ subscription topic,
       "#" ∉ split slash subscription →
       _topic_matches subscription topic = Some true ↔
       Forall2 token_ok (split slash subscription) (split slash topic))
  ∧ (∀ subscription topic,
       "#" ∉ split slash subscription → "+" ∉ split slash subscription →
       _topic_matches subscription topic = Some true ↔
       split slash subscription = split slash topic)
  ∧ (∀ subscription topic pre post tpre tsuffix,
       split slash subscription = pre ++ "#" :: post →
       split slash topic = tpre ++ tsuffix →
       Forall2 token_ok pre tpre →
       _topic_matches subscription topic = Some true).
Proof.
  split; [apply topic_matches_total|].
  split; [intros; by apply parts_match_no_hash|].
  split.
  - intros subscription topic Hhash Hplus. unfold _topic_matches.
    rewrite (parts_match_no_hash _ _ Hhash). split.
    + by apply token_ok_no_plus.
    + intros <-. apply token_ok_refl.
  - apply hash_prefix_matches.
Qed.

Lemma hash_honoured_at_any_position_witness :
  _topic_matches "a/#/b" "a/x/y" = Some true.
Proof.
  apply (proj2 (proj2 (proj2 hash_honoured_at_any_position))
           "a/#/b" "a/x/y" ["a"] ["b"] ["a"] ["x"; "y"]).
  - reflexivity.
  - reflexivity.
  - constructor; [by right|constructor].
Defined.

(** C7 as written fails: [a/#/b] matches [a/x/y]. *)
Lemma malformed_hash_matches_more : ¬ malformed_only_literal.
Proof.
  intros H.
  specialize (H "a/#/b" "a/x/y" ["a"] ["b"] eq_refl ltac:(discriminate) eq_refl).
  discriminate H.
Qed.

(** The four examples of the topic-matching property. *)
Lemma topic_matching_examples :
  _topic_matches "devices/+/status" "devices/42/status" = Some true
  ∧ _topic_matches "devices/#" "devices/42/status/extra" = Some true
  ∧ _topic_matches "devices/+/status" "devices/42/other" = Some false
  ∧ _topic_matches "a/b" "a/b/c" = Some false.
Proof. repeat split. Qed.

(** Different token counts and no [#] in the pattern: no match. *)
Lemma different_counts_no_hash subscription topic :
  length (split slash subscription) ≠ length (split slash topic) →
  "#" ∉ split slash subscription →
  _topic_matches subscription topic = Some false.
Proof.
  intros Hlen Hno. unfold _topic_matches, parts_match.
  by rewrite bool_decide_eq_true_2, bool_decide_eq_false_2.
Qed.

(** A final [#] matches whatever is left of the topic, nothing included. *)
Lemma final_hash_matches_suffix subscription topic pre tpre tsuffix :
  split slash subscription = pre ++ ["#"] →
  split slash topic = tpre ++ tsuffix →
  Forall2 token_ok pre tpre →
  _topic_matches subscription topic = Some true.
Proof. apply hash_prefix_matches. Qed.

(** C6, where the code departs from it: in [a/+/#] against [a] the [+]
    stands at index 1, the topic has no token there, and the matcher still
    answers true: the test for running past the topic comes after the
    [continue] taken for [+]. *)
Theorem plus_matches_past_topic_end :
  split slash "a/+/#" = ["a"; "+"; "#"]
  ∧ split slash "a" = ["a"]
  ∧ split slash "a" !! 1%nat = None
  ∧ _topic_matches "a/+/#" "a" = Some true.
Proof. repeat split. Qed.
End MatcherFacts.

Section ControlFacts.
Import MQTTClient.
Implicit Types (c : client) (cmd : jvalue).

Lemma publish_connected tr topic m c :
  is_connected c = true → published (publish tr topic m c).2 = [Publish topic m].
Proof. intros Hc. unfold publish. rewrite Hc. by destruct tr. Qed.

Lemma published_app evs1 evs2 :
  published (evs1 ++ evs2) = published evs1 ++ published evs2.
Proof. unfold published. apply filter_app. Qed.

Lemma scan_callbacks_no_match cbs topic payload :
  (∀ registered_topic h, (registered_topic, h) ∈ cbs →
                         _topic_matches registered_topic topic = Some false) →
  scan_callbacks cbs topic payload = [Log debug].
Proof.
  induction cbs as [|[reg h] cbs IH]; intros H; simpl; [done|].
  rewrite (H reg h ltac:(left)). apply IH. intros r h' Hin. apply (H r h'). by right.
Qed.

(** C9, as amended: a control message whose command is not restart, config
    or ping is logged and nothing is published for it; a message on another
    topic that has no callback and matches no registered pattern is logged
    and nothing is published; and for each of restart, config and ping a
    connected client hands exactly one message to the transport, an
    acknowledgement on the reply topic devices/<id>/control/ack. *)
Theorem control_acknowledgements (json_loads : string → option control_data) :
  (∀ tr now c text d cmd,
      json_loads text = Some d → command d = Some cmd →
      truthy cmd = true → recognized cmd = false →
      _on_message json_loads tr now (control_topic c) (Some text) c
      = [Log info; Log warning])
  ∧ (∀ tr now c topic text,
      topic ≠ control_topic c →
      dict_get topic (message_callbacks c) = None →
      (∀ registered_topic h,
          (registered_topic, h) ∈ message_callbacks c →
          _topic_matches registered_topic topic = Some false) →
      _on_message json_loads tr now topic (Some text) c = [Log debug])
  ∧ (∀ tr now c text d cmd,
      json_loads text = Some d → command d = Some cmd →
      recognized cmd = true → is_connected c = true →
      ∃ name stat,
        published (_on_message json_loads tr now (control_topic c) (Some text) c)
        = [Publish (ack_topic c) (Ack name stat now)]).
Proof.
  split; [|split].
  - intros tr now c text d cmd Hd Hcmd Htruthy Hrec.
    unfold _on_message. rewrite decide_True by done.
    unfold _handle_control_message. rewrite Hd, Hcmd, Htruthy. simpl.
    unfold recognized in Hrec.
    apply orb_false_iff in Hrec as [Hrec Hping].
    apply orb_false_iff in Hrec as [Hrestart Hconfig].
    apply bool_decide_eq_false in Hrestart, Hconfig, Hping.
    by rewrite !decide_False by done.
  - intros tr now c topic text Hne Hget Hscan.
    unfold _on_message. rewrite decide_False by done. rewrite Hget.
    by apply scan_callbacks_no_match.
  - intros tr now c text d cmd Hd Hcmd Hrec Hconn.
    unfold _on_message. rewrite decide_True by done.
    unfold _handle_control_message. rewrite Hd, Hcmd.
    unfold recognized in Hrec.
    destruct (decide (cmd = JStr "restart")) as [->|Hrestart].
    { simpl. exists "restart", (Some "received").
      change (Log info :: ?l ++ [StartRestart]) with ([Log info] ++ l ++ [StartRestart]).
      rewrite !published_app, publish_connected by done. done. }
    destruct (decide (cmd = JStr "config")) as [->|Hconfig].
    { simpl. exists "config", (Some "applied").
      change (Log info :: ?x :: ?l) with ([Log info; x] ++ l).
      rewrite published_app, publish_connected by done. done. }
    destruct (decide (cmd = JStr "ping")) as [->|Hping].
    { simpl. exists "pong", None.
      change (Log info :: ?l) with ([Log info] ++ l).
      rewrite published_app, publish_connected by done. done. }
    rewrite !bool_decide_eq_false_2 in Hrec by done. done.
Qed.

Lemma control_acknowledgements_witness :
  ∃ name stat,
    published (_on_message sample_loads rc_success 9
                 (control_topic sample_client) (Some "ping-request") sample_client)
    = [Publish (ack_topic sample_client) (Ack name stat 9)].
Proof.
  apply (proj2 (proj2 (control_acknowledgements sample_loads))
           rc_success 9 sample_client "ping-request"
           (mk_control_data (Some (JStr "ping")) None) (JStr "ping"));
    reflexivity.
Defined.

(** C9 as written fails on unknown commands: a connected client that gets
    the command reboot on its control topic logs it and publishes nothing. *)
Lemma unknown_command_gets_no_ack : ¬ unknown_command_acknowledged.
Proof.
  intros H.
  destruct (H sample_loads rc_success 9 sample_client "reboot-request"
              (mk_control_data (Some (JStr "reboot")) None) (JStr "reboot")
              eq_refl eq_refl eq_refl eq_refl eq_refl) as (name & stat & time & Hin).
  vm_compute in Hin.
  repeat (apply elem_of_cons in Hin as [Hin|Hin]; [discriminate Hin|]).
  by apply elem_of_nil in Hin.
Qed.
End ControlFacts.

(* ===================================================================== *)
(** * Further properties of the registry                                  *)
(* ===================================================================== *)
Section RegistryMore.
Import DeviceManager.
Implicit Types (m : manager) (d : device_info) (id k : string).

Lemma manager_eq m1 m2 :
  devices m1 = devices m2 → active_devices m1 = active_devices m2 → m1 = m2.
Proof. destruct m1, m2. simpl. by intros -> ->. Qed.

Lemma reachable_consistent timeout m : reachable timeout m → consistent m.
Proof. induction 1; [apply init_consistent|by apply step_consistent]. Qed.

Lemma status_name_active s : status_name s = "active" ↔ s = active.
Proof. destruct s; simpl; split; intros H; try done; discriminate H. Qed.

Lemma occurrences_all_zero (l : list string) :
  (∀ k, occurrences k l = 0%nat) → l = [].
Proof.
  destruct l as [|x l]; [done|]. intros H. specialize (H x).
  unfold occurrences in H. rewrite filter_cons_True in H by done. discriminate H.
Qed.

Lemma missed_heartbeat_swept timeout now d :
  missed_heartbeat timeout now (swept timeout now d) = false.
Proof.
  unfold swept. destruct (missed_heartbeat timeout now d) eqn:Hm; [|done].
  unfold missed_heartbeat. simpl. apply andb_false_r.
Qed.

Lemma elem_of_marked timeout now m k :
  k ∈ (sweep_locked timeout now m).2 ↔
  ∃ d, devices m !! k = Some d ∧ missed_heartbeat timeout now d = true.
Proof.
  pose proof (sweep_locked_marked timeout now m k) as Hc.
  unfold occurrences in Hc. split.
  - intros Hin.
    destruct (devices m !! k) as [d|] eqn:Hk.
    + destruct (missed_heartbeat timeout now d) eqn:Hm; [by exists d|].
      apply length_zero_iff_nil in Hc.
      exfalso. eapply (filter_nil_not_elem_of _ _ k Hc); done.
    + apply length_zero_iff_nil in Hc.
      exfalso. eapply (filter_nil_not_elem_of _ _ k Hc); done.
  - intros (d & Hd & Hm). rewrite Hd, Hm in Hc.
    destruct (filter (λ x, x = k) (sweep_locked timeout now m).2) as [|x l] eqn:Hf;
      [discriminate Hc|].
    assert (x ∈ filter (λ x, x = k) (sweep_locked timeout now m).2) as Hx
        by (rewrite Hf; left).
    apply list_elem_of_filter in Hx as [-> Hx]. done.
Qed.

(** X1: unregistering a device, in a registry whose two views agree,
    answers true exactly when the device had a record; afterwards its status
    is "unknown" and it is not listed as active; every other device keeps its
    record and its membership; and a second unregistration answers false and
    changes nothing. *)
Theorem unregister_device_forgets id m :
  consistent m →
  let r := unregister_device id m in
  (r.1 = true ↔ is_Some (devices m !! id))
  ∧ get_device_status id r.2 = "unknown"
  ∧ (id ∉ get_active_devices r.2)
  ∧ (∀ k, k ≠ id → devices r.2 !! k = devices m !! k
                   ∧ (k ∈ active_devices r.2 ↔ k ∈ active_devices m))
  ∧ unregister_device id r.2 = (false, r.2).
Proof.
  intros Hc r. unfold r, unregister_device, get_device_status, get_active_devices.
  destruct (devices m !! id) as [d|] eqn:Hid; cbn [fst snd devices active_devices].
  - rewrite lookup_delete_eq. split; [split; [by eexists|done]|].
    split; [done|]. split.
    { rewrite elem_of_elements, elem_of_difference, elem_of_singleton. tauto. }
    split; [|done].
    intros k Hk. rewrite lookup_delete_ne by done.
    rewrite elem_of_difference, elem_of_singleton. split; [done|]. tauto.
  - rewrite Hid. split; [split; [done|by intros [? ?]]|].
    split; [done|]. split; [|done].
    rewrite elem_of_elements. intros Hin.
    apply Hc in Hin as (d & Hd & _). congruence.
Qed.

Lemma unregister_device_forgets_witness :
  get_device_status "cam2" (unregister_device "cam2" three_cameras).2 = "unknown".
Proof.
  apply (proj1 (proj2 (unregister_device_forgets "cam2" three_cameras
           ltac:(unfold three_cameras; repeat apply register_device_consistent;
                 apply init_consistent)))).
Defined.

(** X2: a device that a sweep has just marked offline comes back to active
    on its next heartbeat, with the address and connection time it had and
    the new heartbeat time, and equally on a new registration, which replaces
    the whole record; in both cases it is in the active set again. *)
Theorem offline_device_comes_back timeout now m id d :
  devices m !! id = Some d →
  missed_heartbeat timeout now d = true →
  let m1 := (sweep_locked timeout now m).1 in
  get_device_status id m1 = "offline"
  ∧ (id ∉ active_devices m1)
  ∧ (∀ db h,
       let r := update_device_heartbeat db h id m1 in
       r.1.1 = true
       ∧ devices r.1.2 !! id
         = Some (mk_device_info (device_id d) (ip_address d) active h
                                (connected_at d) (protocol d))
       ∧ id ∈ active_devices r.1.2)
  ∧ (∀ t tc ip,
       let r := register_device t tc id ip m1 in
       devices r.2 !! id = Some (mk_device_info id ip active t tc "mqtt")
       ∧ id ∈ active_devices r.2).
Proof.
  intros Hd Hm m1.
  assert (devices m1 !! id = Some (set_status offline d)) as H1.
  { unfold m1. rewrite sweep_locked_lookup, Hd. simpl. unfold swept. by rewrite Hm. }
  split; [by rewrite (get_device_status_lookup _ _ _ H1)|].
  split.
  { unfold m1. rewrite sweep_locked_active. intros [_ H].
    specialize (H d Hd). congruence. }
  split.
  - intros db h r. unfold r.
    rewrite (update_device_heartbeat_known _ _ _ _ _ H1). cbn [fst snd devices active_devices].
    rewrite lookup_insert_eq. split; [done|]. split; [done|].
    apply elem_of_union. left. by apply elem_of_singleton.
  - intros t tc ip r. unfold r. cbn [register_device fst snd devices active_devices].
    rewrite lookup_insert_eq. split; [done|].
    apply elem_of_union. left. by apply elem_of_singleton.
Qed.

Lemma offline_device_comes_back_witness :
  get_device_status "cam1"
    (sweep_locked heartbeat_timeout (usec 400) three_cameras).1 = "offline".
Proof.
  apply (proj1 (offline_device_comes_back heartbeat_timeout (usec 400) three_cameras
                  "cam1" (mk_device_info "cam1" "10.0.0.5" active 0 0 "mqtt")
                  eq_refl eq_refl)).
Defined.

(** X3: in every reachable registry the list of active devices has no
    duplicates and holds exactly the devices whose reported status is
    "active"; a device that is not listed is reported "offline" or
    "unknown". *)
Theorem active_list_matches_status timeout m :
  reachable timeout m →
  NoDup (get_active_devices m)
  ∧ (∀ id, id ∈ get_active_devices m ↔ get_device_status id m = "active")
  ∧ (∀ id, id ∉ get_active_devices m →
           get_device_status id m = "offline" ∨ get_device_status id m = "unknown").
Proof.
  intros Hr. apply reachable_consistent in Hr.
  assert (∀ id, id ∈ get_active_devices m ↔ get_device_status id m = "active") as Hiff.
  { intros id. unfold get_active_devices, get_device_status.
    rewrite elem_of_elements, (Hr id).
    destruct (devices m !! id) as [d|]; split.
    - intros (d' & Hd' & Hs). inversion Hd'; subst d'. by rewrite Hs.
    - intros Hs. apply status_name_active in Hs. eauto.
    - by intros (d' & Hd' & _).
    - intros H. discriminate H. }
  split; [unfold get_active_devices; apply NoDup_elements|]. split; [done|].
  intros id Hnot. rewrite Hiff in Hnot. unfold get_device_status in *.
  destruct (devices m !! id) as [d|]; [|by right].
  destruct (dev_status d); [by exfalso; apply Hnot|by left].
Qed.

Lemma active_list_matches_status_witness :
  NoDup (get_active_devices three_cameras).
Proof.
  apply (proj1 (active_list_matches_status heartbeat_timeout three_cameras
    (reachable_step _ (Register 2 2 "cam3" "10.0.0.7") _
      (reachable_step _ (Register 1 1 "cam2" "10.0.0.6") _
        (reachable_step _ (Register 0 0 "cam1" "10.0.0.5") _
          (reachable_init _)))))).
Defined.

Lemma occurrences_NoDup (l : list string) :
  (∀ k, (occurrences k l ≤ 1)%nat) → NoDup l.
Proof.
  induction l as [|x l IH]; intros H; [constructor|].
  constructor.
  - intros Hin. specialize (H x). unfold occurrences in H.
    rewrite filter_cons_True in H by done. simpl in H.
    assert (x ∈ filter (λ y, y = x) l) as Hx by (by apply list_elem_of_filter).
    destruct (filter (λ y, y = x) l); [by apply elem_of_nil in Hx|].
    simpl in H. lia.
  - apply IH. intros k. specialize (H k). unfold occurrences in *.
    destruct (decide (x = k)) as [->|Hne].
    + rewrite filter_cons_True in H by done. simpl in H. lia.
    + by rewrite filter_cons_False in H by done.
Qed.

Lemma swept_swept timeout now d :
  swept timeout now (swept timeout now d) = swept timeout now d.
Proof.
  unfold swept at 1. by rewrite missed_heartbeat_swept.
Qed.

(** X4: one pass of the heartbeat monitor collects each device at most
    once, and exactly the devices whose record was stale and active; it never
    adds a device to the active set; and a second pass with the same clock
    reading changes nothing and reports nothing. *)
Theorem sweep_settles timeout db db' now m :
  let r := monitor_heartbeats_pass timeout db now m in
  NoDup (sweep_locked timeout now m).2
  ∧ (∀ k, k ∈ (sweep_locked timeout now m).2 ↔
          ∃ d, devices m !! k = Some d ∧ missed_heartbeat timeout now d = true)
  ∧ active_devices r.1 ⊆ active_devices m
  ∧ monitor_heartbeats_pass timeout db' now r.1 = (r.1, []).
Proof.
  intros r. split; [|split; [|split]].
  - apply occurrences_NoDup. intros k. rewrite sweep_locked_marked.
    destruct (devices m !! k) as [d|]; [|lia].
    destruct (missed_heartbeat timeout now d); lia.
  - apply elem_of_marked.
  - intros k Hk. unfold r in Hk. cbn [monitor_heartbeats_pass fst] in Hk.
    by apply sweep_locked_active in Hk as [? _].
  - unfold r. cbn [monitor_heartbeats_pass fst].
    set (m1 := (sweep_locked timeout now m).1).
    assert ((sweep_locked timeout now m1).2 = []) as Hnil.
    { apply occurrences_all_zero. intros k. rewrite sweep_locked_marked.
      unfold m1. rewrite sweep_locked_lookup.
      destruct (devices m !! k) as [d|]; simpl; [|done].
      by rewrite missed_heartbeat_swept. }
    unfold monitor_heartbeats_pass. rewrite Hnil. simpl. f_equal.
    apply manager_eq.
    + apply map_eq. intros k. rewrite sweep_locked_lookup.
      unfold m1. rewrite sweep_locked_lookup.
      destruct (devices m !! k) as [d|]; simpl; [|done].
      by rewrite swept_swept.
    + apply set_eq. intros k. rewrite sweep_locked_active. split; [tauto|].
      intros Hk. split; [done|]. intros d Hd.
      unfold m1 in Hd. rewrite sweep_locked_lookup in Hd.
      destruct (devices m !! k) as [d0|]; simpl in Hd; [|done].
      inversion Hd. apply missed_heartbeat_swept.
Qed.

(** X5: configure and restart answer false and post nothing for a device
    without a record, in particular after it was unregistered; for a
    registered device they make one post, to the address of its latest
    registration, and answer whether the reply was a 200; and they do not
    look at the status: a sweep does not change what they do, so a device
    marked offline is still sent commands. *)
Theorem commands_follow_registration net id config :
  (∀ m, devices m !! id = None →
        configure_device net id config m = (false, [])
        ∧ restart_device net id m = (false, []))
  ∧ (∀ m, configure_device net id config (unregister_device id m).2 = (false, [])
          ∧ restart_device net id (unregister_device id m).2 = (false, []))
  ∧ (∀ m t tc ip,
        configure_device net id config (register_device t tc id ip m).2
        = (delivered (net id),
           [mk_attempt id ("http://" +:+ ip +:+ "/api/configure") config])
        ∧ restart_device net id (register_device t tc id ip m).2
          = (delivered (net id),
             [mk_attempt id ("http://" +:+ ip +:+ "/api/restart") ""]))
  ∧ (∀ timeout now m,
        configure_device net id config (sweep_locked timeout now m).1
        = configure_device net id config m
        ∧ restart_device net id (sweep_locked timeout now m).1
          = restart_device net id m).
Proof.
  split; [|split; [|split]].
  - intros m Hm. unfold configure_device, restart_device. by rewrite Hm.
  - intros m. unfold configure_device, restart_device, unregister_device.
    destruct (devices m !! id) eqn:Hid; cbn [snd devices].
    + by rewrite lookup_delete_eq.
    + by rewrite Hid.
  - intros m t tc ip. unfold configure_device, restart_device.
    cbn [register_device snd devices]. by rewrite lookup_insert_eq.
  - intros timeout now m. unfold configure_device, restart_device.
    rewrite sweep_locked_lookup.
    destruct (devices m !! id) as [d|]; simpl; [|done].
    unfold swept. by destruct (missed_heartbeat timeout now d).
Qed.

Lemma broadcast_fold_any net message m l (acc : nat * nat * list attempt) :
  let r := foldl (broadcast_device net message m) acc l in
  (∀ a, a ∈ r.2 →
        a ∈ acc.2 ∨ (att_device a ∈ l ∧ is_Some (devices m !! att_device a)))
  ∧ (r.1.1 + r.1.2 + length acc.2 = acc.1.1 + acc.1.2 + length r.2)%nat
  ∧ (length r.2 ≤ length acc.2 + length l)%nat.
Proof.
  revert acc. induction l as [|id l IH]; intros acc; cbn [foldl].
  { cbv zeta. split; [by left|]. split; lia. }
  destruct (IH (broadcast_device net message m acc id)) as (H1 & H2 & H3).
  cbv zeta in *.
  assert (broadcast_device net message m acc id = acc
          ∨ (is_Some (devices m !! id)
             ∧ ∃ c f post,
                 broadcast_device net message m acc id = (c, f, acc.2 ++ [post])
                 ∧ att_device post = id
                 ∧ (c + f = S (acc.1.1 + acc.1.2))%nat))
    as [Hsame|(Hsome & c & f & post & Hstep & Hpost & Hcf)].
  { unfold broadcast_device, get_device_info.
    destruct (devices m !! id) as [d|] eqn:Hd; [right|by left].
    split; [by eexists|]. simpl.
    destruct (delivered (net id)); eexists _, _, _;
      (split; [reflexivity|split; [reflexivity|simpl; lia]]). }
  - rewrite Hsame in *. split; [|split; [done|simpl; lia]].
    intros a Ha. destruct (H1 a Ha) as [?|[? ?]]; [by left|right].
    split; [by right|done].
  - rewrite Hstep in *. cbn [fst snd] in *. rewrite length_app in *. simpl in *.
    split; [|split; lia].
    intros a Ha. destruct (H1 a Ha) as [Hin|[? ?]].
    + apply elem_of_app in Hin as [?|Hin]; [by left|right].
      apply list_elem_of_singleton in Hin. subst a. rewrite Hpost.
      split; [by left|done].
    + right. split; [by right|done].
Qed.

(** X6: a broadcast posts only to devices of the active set that have a
    record, never more posts than there are active devices, and the two
    counts add up to the number of posts made; with no active device it
    returns (0, 0) without posting; and a device that the preceding sweep
    marked offline gets no post. *)
Theorem broadcast_only_active net message m :
  let r := broadcast_message net message m in
  (∀ a, a ∈ r.2 → att_device a ∈ active_devices m
                  ∧ is_Some (devices m !! att_device a))
  ∧ (r.1.1 + r.1.2)%nat = length r.2
  ∧ (length r.2 ≤ size (active_devices m))%nat
  ∧ (active_devices m = ∅ → r = (0%nat, 0%nat, []))
  ∧ (∀ timeout now id d,
        devices m !! id = Some d → missed_heartbeat timeout now d = true →
        id ∉ att_device <$> (broadcast_message net message
                               (sweep_locked timeout now m).1).2).
Proof.
  assert (∀ m', ∀ a, a ∈ (broadcast_message net message m').2 →
            att_device a ∈ active_devices m'
            ∧ is_Some (devices m' !! att_device a)) as Hin.
  { intros m' a Ha.
    destruct (broadcast_fold_any net message m' (elements (active_devices m'))
                (0%nat, 0%nat, [])) as (H1 & _).
    destruct (H1 a Ha) as [Hnil|[Hel Hs]]; [by apply elem_of_nil in Hnil|].
    by apply elem_of_elements in Hel. }
  intros r.
  destruct (broadcast_fold_any net message m (elements (active_devices m))
              (0%nat, 0%nat, [])) as (H1 & H2 & H3).
  fold (broadcast_message net message m) in H1, H2, H3. fold r in H1, H2, H3.
  simpl in H2, H3.
  split; [apply Hin|]. split; [lia|]. split; [done|]. split.
  - intros Hempty. unfold r, broadcast_message. rewrite Hempty.
    by rewrite elements_empty.
  - intros timeout now id d Hd Hm Hpost.
    apply list_elem_of_fmap in Hpost as (a & -> & Ha).
    apply Hin in Ha as [Hact _].
    apply sweep_locked_active in Hact as [_ H]. specialize (H d Hd). congruence.
Qed.
End RegistryMore.

(* ===================================================================== *)
(** * Further properties of the ingestion pipeline                        *)
(* ===================================================================== *)
Section PipelineMore.
Import DataProcessor.
Implicit Types (p : processor) (it : item) (q its : list item).

Lemma set_queue_set_queue q q' p : set_queue q (set_queue q' p) = set_queue q p.
Proof. done. Qed.

Lemma set_queue_same p : set_queue (processing_queue p) p = p.
Proof. by destruct p. Qed.

(** Processing an item does not look at the queue. *)
Lemma process_item_set_queue it q p :
  _process_item it (set_queue q p)
  = (set_queue q (_process_item it p).1, (_process_item it p).2).
Proof.
  unfold _process_item.
  destruct (decide (item_type it = "image")).
  { unfold _process_image_data. simpl. destruct (face_detector p); simpl; [|done].
    destruct (data it) as [[faces|]| |]; simpl; try done.
    f_equal. induction faces as [|f faces IH]; simpl; [done|].
    destruct (region_size f =? 0)%nat; [done|]. by destruct (face_jpeg f). }
  destruct (decide (item_type it = "attendance")).
  { unfold _process_attendance_data. destruct (data it) as [|a|]; simpl; try done.
    destruct (truthy_id (user_id a)); simpl; [|done].
    by destruct (match last_attendance_time p !! _ with Some _ => _ | None => _ end). }
  destruct (decide (item_type it = "sensor")); [|done].
  unfold _process_sensor_data. by destruct (report_to_backend _).
Qed.

Lemma process_all_set_queue its q p :
  process_all its (set_queue q p)
  = (set_queue q (process_all its p).1, (process_all its p).2).
Proof.
  revert p. induction its as [|it its IH]; intros p; [done|].
  cbn [process_all]. rewrite process_item_set_queue. cbn [fst snd].
  by rewrite IH.
Qed.

Lemma process_all_app its1 its2 p :
  process_all (its1 ++ its2) p
  = ((process_all its2 (process_all its1 p).1).1,
     (process_all its1 p).2 ++ (process_all its2 (process_all its1 p).1).2).
Proof.
  revert p. induction its1 as [|it its1 IH]; intros p.
  { simpl. by destruct (process_all its2 p). }
  cbn [app process_all]. rewrite IH. cbn [fst snd]. by rewrite app_assoc.
Qed.

Lemma processing_loop_idle n p :
  processing_queue p = [] → _processing_loop n p = (p, []).
Proof.
  intros Hq. induction n as [|n IH]; [done|].
  cbn [_processing_loop]. unfold processing_loop_turn. rewrite Hq.
  cbn [fst snd]. by rewrite IH.
Qed.

Lemma processing_loop_drains q k p :
  processing_queue p = q →
  _processing_loop (length q + k) p
  = (set_queue [] (process_all q p).1, (process_all q p).2).
Proof.
  revert p. induction q as [|it rest IH]; intros p Hq.
  - simpl. rewrite processing_loop_idle by done. by rewrite <- Hq, set_queue_same.
  - cbn [length Nat.add _processing_loop process_all].
    rewrite (loop_turn_cons _ _ _ Hq), process_item_set_queue. cbn [fst snd].
    rewrite IH by done. rewrite process_all_set_queue. cbn [fst snd].
    by rewrite set_queue_set_queue.
Qed.

(** X7: the consumer works first in, first out.  Run for at least as many
    turns as the queue is long, it leaves the queue empty and has processed
    the queued items one after the other from the head, each in the state the
    previous one left; further turns on the empty queue do nothing; and an
    item accepted by [process_data] is processed after everything that was
    queued before it. *)
Theorem consumer_drains_in_order p k :
  let q := processing_queue p in
  _processing_loop (length q + k) p
  = (set_queue [] (process_all q p).1, (process_all q p).2)
  ∧ (∀ now d ty md,
       (length q < max_queue_size p)%nat →
       let p' := (process_data now d ty md p).2 in
       let x := mk_item ty d (default no_metadata md) now in
       (_processing_loop (length (processing_queue p') + k) p').2
       = (process_all q p).2 ++ (_process_item x (process_all q p).1).2).
Proof.
  intros q. split; [by apply processing_loop_drains|].
  intros now d ty md Hroom p' x.
  rewrite processing_loop_drains by done.
  unfold p'. rewrite process_data_room by done. cbn [fst snd].
  change (processing_queue (set_queue ?l p)) with l.
  rewrite process_all_set_queue. cbn [snd]. fold q x.
  rewrite process_all_app. cbn [snd process_all]. by rewrite app_nil_r.
Qed.

Lemma consumer_drains_in_order_witness :
  let p := init "dev001" false in
  let p' := (process_data 7 (RawData "21.5") "sensor"
               (Some (mk_metadata None true None)) p).2 in
  (_processing_loop (length (processing_queue p') + 3) p').2
  = [Log debug; PostSensor "dev001" 7 "unknown" (RawData "21.5")].
Proof.
  intros p p'.
  apply (proj2 (consumer_drains_in_order p 3) 7 (RawData "21.5") "sensor"
           (Some (mk_metadata None true None))).
  simpl. lia.
Defined.

Lemma attendance_times_app uid evs1 evs2 :
  attendance_times uid (evs1 ++ evs2)
  = attendance_times uid evs1 ++ attendance_times uid evs2.
Proof. unfold attendance_times. apply omap_app. Qed.

(** What one item does to the reports and the cooldown entry of [uid]:
    nothing, or one report at the item's time, which becomes the entry and is
    at least the window after the previous entry. *)
Lemma process_item_subject it p uid :
  (attendance_times uid (_process_item it p).2 = []
   ∧ last_attendance_time (_process_item it p).1 !! uid
     = last_attendance_time p !! uid)
  ∨ (concerns uid it = true
     ∧ attendance_times uid (_process_item it p).2 = [timestamp it]
     ∧ last_attendance_time (_process_item it p).1 !! uid = Some (timestamp it)
     ∧ ∀ last_time, last_attendance_time p !! uid = Some last_time →
                    usec (min_attendance_interval p) ≤ timestamp it - last_time).
Proof.
  unfold _process_item, concerns.
  destruct (decide (item_type it = "image")) as [Himg|].
  { left. unfold _process_image_data. destruct (face_detector p); simpl; [|done].
    destruct (data it) as [[faces|]| |]; simpl; try done. split; [|done].
    induction faces as [|f faces IH]; simpl; [done|].
    destruct (region_size f =? 0)%nat; [done|]. by destruct (face_jpeg f). }
  destruct (decide (item_type it = "attendance")) as [Hatt|].
  { unfold _process_attendance_data. rewrite bool_decide_eq_true_2 by done.
    destruct (data it) as [|a|]; simpl; try (by left).
    destruct (truthy_id (user_id a)) as [u|] eqn:Hu; simpl; [|by left].
    destruct (last_attendance_time p !! u) as [last_time|] eqn:Hl.
    - unfold total_seconds_lt.
      destruct (bool_decide (timestamp it - last_time
                             < usec (min_attendance_interval p))) eqn:Hdup; simpl.
      { by left. }
      apply bool_decide_eq_false in Hdup.
      destruct (decide (u = uid)) as [->|Hne].
      + right. rewrite bool_decide_eq_true_2 by done. rewrite lookup_insert_eq.
        repeat split. intros l Hl'. rewrite Hl in Hl'. inversion Hl'. lia.
      + left. by rewrite lookup_insert_ne.
    - simpl. destruct (decide (u = uid)) as [->|Hne].
      + right. rewrite bool_decide_eq_true_2 by done. rewrite lookup_insert_eq.
        repeat split. intros l Hl'. rewrite Hl in Hl'. discriminate Hl'.
      + left. by rewrite lookup_insert_ne. }
  left. destruct (decide (item_type it = "sensor")); [|done].
  unfold _process_sensor_data. by destruct (report_to_backend _).
Qed.

(** X8: however attendance, image and sensor items for any subjects are
    mixed, the reports made for one subject are never closer together than
    the cooldown window, the first of them is at least the window after the
    cooldown time the subject had before, and the subject's cooldown time at
    the end is the time of its last report (or the one it had, when nothing
    was reported). *)
Theorem reports_never_closer_than_window its p uid :
  let times := attendance_times uid (process_all its p).2 in
  let before := option_list (last_attendance_time p !! uid) in
  spaced (usec (min_attendance_interval p)) (before ++ times)
  ∧ last_attendance_time (process_all its p).1 !! uid = last (before ++ times).
Proof.
  revert p. induction its as [|it its IH]; intros p times before.
  { unfold times, before. simpl. rewrite app_nil_r.
    by destruct (last_attendance_time p !! uid). }
  unfold times. cbn [process_all fst snd]. rewrite attendance_times_app.
  specialize (IH (_process_item it p).1). cbv zeta in IH.
  destruct (process_item_queue it p) as (_ & _ & Hint & _). rewrite Hint in IH.
  destruct IH as [IHs IHl].
  destruct (process_item_subject it p uid) as [[Ht Hl]|(_ & Ht & Hl & Hw)].
  - rewrite Ht, Hl in *. by rewrite app_nil_l.
  - rewrite Ht, Hl in *. simpl in IHs, IHl. unfold before.
    set (rest := attendance_times uid (process_all its (_process_item it p).1).2) in *.
    destruct (last_attendance_time p !! uid) as [l|] eqn:Hprev; simpl.
    + split; [split; [by apply Hw|exact IHs]|]. exact IHl.
    + split; [exact IHs|exact IHl].
Qed.

Lemma process_item_concerns it p uid :
  concerns uid it = true →
  ∃ a, _process_item it p
       = if match last_attendance_time p !! uid with
            | Some last_time =>
                total_seconds_lt (timestamp it - last_time) (min_attendance_interval p)
            | None => false
            end
         then (p, [Log info])
         else (set_last_attendance_time
                 (<[uid := timestamp it]> (last_attendance_time p)) p,
               [PostAttendance uid (device_id p) (timestamp it)
                  (default "manual" (verification_method a))
                  (default "" (location (item_metadata it)))
                  (default "present" (att_status a))]).
Proof.
  unfold concerns. intros Hc.
  apply andb_true_iff in Hc as [Hty Hd]. apply bool_decide_eq_true in Hty.
  destruct (data it) as [|a|] eqn:Hdata; try done.
  apply bool_decide_eq_true in Hd. exists a.
  unfold _process_item. rewrite decide_False by (rewrite Hty; done).
  rewrite decide_True by done. unfold _process_attendance_data.
  by rewrite Hdata, Hd.
Qed.

(** X9: the attendance reports made for a subject depend only on that
    subject's own attendance items, on its cooldown time at the start and on
    the window: dropping every other item from the sequence, and changing the
    rest of the processor, leaves their times the same. *)
Theorem subject_reports_independent its p p' uid :
  last_attendance_time p !! uid = last_attendance_time p' !! uid →
  min_attendance_interval p = min_attendance_interval p' →
  attendance_times uid (process_all its p).2
  = attendance_times uid
      (process_all (filter (λ it, concerns uid it = true) its) p').2.
Proof.
  revert p p'. induction its as [|it its IH]; intros p p' Hl Hw; [done|].
  cbn [process_all snd]. rewrite attendance_times_app.
  destruct (process_item_queue it p) as (_ & _ & Hint & _).
  destruct (concerns uid it) eqn:Hc.
  - rewrite filter_cons_True by done. cbn [process_all snd].
    rewrite attendance_times_app.
    destruct (process_item_queue it p') as (_ & _ & Hint' & _).
    assert (attendance_times uid (_process_item it p).2
            = attendance_times uid (_process_item it p').2
            ∧ last_attendance_time (_process_item it p).1 !! uid
              = last_attendance_time (_process_item it p').1 !! uid) as [-> Hl'].
    { clear IH Hint Hint'.
      destruct (process_item_concerns it p uid Hc) as [a ->].
      destruct (process_item_concerns it p' uid Hc) as [a' ->].
      rewrite <- Hl, <- Hw.
      destruct (match last_attendance_time p !! uid with
                | Some last_time => _ | None => false end); simpl; [done|].
      by rewrite !lookup_insert_eq. }
    f_equal. apply IH; [done|congruence].
  - rewrite filter_cons_False by (rewrite Hc; done).
    destruct (process_item_subject it p uid) as [[Ht Hl']|(Hc' & _)];
      [|congruence].
    rewrite Ht, app_nil_l. apply IH; [congruence|congruence].
Qed.

Lemma subject_reports_independent_witness :
  let p := init "dev001" true in
  let a u := AttendanceData (mk_attendance (Some u) None None) in
  attendance_times "u1"
    (process_all [mk_item "attendance" (a "u1") no_metadata (usec 1);
                  mk_item "attendance" (a "u2") no_metadata (usec 2);
                  mk_item "sensor" (RawData "20") no_metadata (usec 3);
                  mk_item "attendance" (a "u1") no_metadata (usec 70)] p).2
  = attendance_times "u1"
      (process_all [mk_item "attendance" (a "u1") no_metadata (usec 1);
                    mk_item "attendance" (a "u1") no_metadata (usec 70)] p).2.
Proof.
  intros p a.
  apply (subject_reports_independent
           [mk_item "attendance" (a "u1") no_metadata (usec 1);
            mk_item "attendance" (a "u2") no_metadata (usec 2);
            mk_item "sensor" (RawData "20") no_metadata (usec 3);
            mk_item "attendance" (a "u1") no_metadata (usec 70)] p p "u1");
    reflexivity.
Defined.

Lemma send_first_face_spec faces (md : metadata) p :
  (Forall (λ f, region_size f = 0%nat) faces ∧ send_first_face faces md p = [])
  ∨ (∃ skipped f rest,
        faces = skipped ++ f :: rest
        ∧ Forall (λ g, region_size g = 0%nat) skipped
        ∧ region_size f ≠ 0%nat
        ∧ send_first_face faces md p
          = match face_jpeg f with
            | Some b64 => [PostFace b64 (device_id p) (default "" (location md))]
            | None => [Log error]
            end).
Proof.
  induction faces as [|f faces IH]; [by left|]. simpl.
  destruct (region_size f =? 0)%nat eqn:Hz.
  - apply Nat.eqb_eq in Hz. destruct IH as [[HF ->]|(sk & g & rest & -> & HF & Hg & ->)].
    + left. split; [by constructor|done].
    + right. exists (f :: sk), g, rest. repeat split; [by constructor|done].
  - apply Nat.eqb_neq in Hz. right. exists [], f, faces. repeat split; done.
Qed.

(** X10: of the face regions found in an image, only the first one that is
    not empty is sent for identification; the regions after it are never
    sent, also when encoding that first one fails; an image with no region
    or only empty ones sends nothing; and without a loaded face detector
    image items are dropped without any effect. *)
Theorem only_first_face_is_sent skipped f rest (md : metadata) ts p :
  Forall (λ g, region_size g = 0%nat) skipped →
  region_size f ≠ 0%nat →
  let it faces := mk_item "image" (ImageData (Some faces)) md ts in
  (face_detector p = true →
   reports (_process_item (it (skipped ++ f :: rest)) p).2
   = match face_jpeg f with
     | Some b64 => [PostFace b64 (device_id p) (default "" (location md))]
     | None => []
     end
   ∧ reports (_process_item (it skipped) p).2 = [])
  ∧ (face_detector p = false →
     _process_item (it (skipped ++ f :: rest)) p = (p, [])).
Proof.
  intros Hsk Hf it.
  assert (∀ l, send_first_face (skipped ++ l) md p = send_first_face l md p) as Hskip.
  { intros l. induction Hsk as [|g sk Hg _ IH]; [done|].
    simpl. by rewrite Hg. }
  unfold it, _process_item, _process_image_data. simpl. split.
  - intros ->. simpl. rewrite Hskip. simpl.
    rewrite (proj2 (Nat.eqb_neq _ _) Hf).
    split; [by destruct (face_jpeg f)|].
    specialize (Hskip []). rewrite app_nil_r in Hskip. by rewrite Hskip.
  - by intros ->.
Qed.

Lemma only_first_face_is_sent_witness :
  reports (_process_item
             (mk_item "image"
                (ImageData (Some [mk_face 0 None; mk_face 900 (Some "AAAA");
                                  mk_face 400 (Some "BBBB")]))
                no_metadata 3) (init "dev001" true)).2
  = [PostFace "AAAA" "dev001" ""].
Proof.
  apply (proj1 (proj1 (only_first_face_is_sent [mk_face 0 None]
                  (mk_face 900 (Some "AAAA")) [mk_face 400 (Some "BBBB")]
                  no_metadata 3 (init "dev001" true)
                  ltac:(repeat constructor) ltac:(simpl; lia)) eq_refl)).
Defined.

(** X11: processing one queued item makes at most one call to the back
    end, and only through the channel of the item's own type: a face post for
    an image item (with a detector loaded), an attendance post for an
    attendance item, a sensor post for a sensor item whose metadata asks for
    it; an item of any other type makes none; and only an attendance item can
    change the processor. *)
Theorem one_report_per_item it p :
  (length (reports (_process_item it p).2) ≤ 1)%nat
  ∧ (∀ e, e ∈ reports (_process_item it p).2 →
       match e with
       | Log _ => False
       | PostFace _ _ _ => item_type it = "image" ∧ face_detector p = true
       | PostAttendance _ _ t _ _ _ =>
           item_type it = "attendance" ∧ t = timestamp it
       | PostSensor _ t _ _ =>
           item_type it = "sensor" ∧ report_to_backend (item_metadata it) = true
           ∧ t = timestamp it
       end)
  ∧ (item_type it ≠ "attendance" → (_process_item it p).1 = p).
Proof.
  unfold _process_item.
  destruct (decide (item_type it = "image")) as [Himg|Himg].
  { unfold _process_image_data.
    destruct (face_detector p) eqn:Hdet; simpl.
    2:{ split; [lia|]. split; [|done]. intros e He. by apply elem_of_nil in He. }
    destruct (data it) as [[faces|]| |]; simpl;
      try (split; [lia|]; split; [|done]; intros e He; by apply elem_of_nil in He).
    destruct (send_first_face_spec faces (item_metadata it) p)
      as [[_ ->]|(sk & f & rest & _ & _ & _ & ->)].
    - split; [simpl; lia|]. split; [|done]. intros e He. by apply elem_of_nil in He.
    - destruct (face_jpeg f); simpl.
      + split; [lia|]. split; [|done]. intros e He.
        apply list_elem_of_singleton in He. by subst e.
      + split; [lia|]. split; [|done]. intros e He. by apply elem_of_nil in He. }
  destruct (decide (item_type it = "attendance")) as [Hatt|Hatt].
  { unfold _process_attendance_data.
    destruct (data it) as [|a|]; simpl;
      try (split; [lia|]; split; [|done]; intros e He; by apply elem_of_nil in He).
    destruct (truthy_id (user_id a)) as [u|]; simpl.
    2:{ split; [lia|]. split; [|done]. intros e He. by apply elem_of_nil in He. }
    destruct (match last_attendance_time p !! u with
              | Some last_time => _ | None => false end); simpl.
    - split; [lia|]. split; [|done]. intros e He. by apply elem_of_nil in He.
    - split; [lia|]. split; [|done]. intros e He.
      apply list_elem_of_singleton in He. by subst e. }
  destruct (decide (item_type it = "sensor")) as [Hsen|Hsen].
  { unfold _process_sensor_data.
    destruct (report_to_backend (item_metadata it)) eqn:Hrep; simpl.
    - split; [lia|]. split; [|done]. intros e He.
      apply list_elem_of_singleton in He. by subst e.
    - split; [lia|]. split; [|done]. intros e He. by apply elem_of_nil in He. }
  simpl. split; [lia|]. split; [|done]. intros e He. by apply elem_of_nil in He.
Qed.
End PipelineMore.

(* ===================================================================== *)
(** * Further properties of the MQTT client                               *)
(* ===================================================================== *)
Section ClientMore.
Import MQTTClient.
Implicit Types (c : client) (sub_parts topic_parts pre post : list string)
  (cbs : list (string * handler)).

Lemma match_parts_before_hash i pre post topic_parts :
  "#" ∉ pre →
  match_parts i (pre ++ "#" :: post) topic_parts = Some true →
  ∀ j s, pre !! j = Some s →
         s = "+" ∨ topic_parts !! (i + j)%nat = Some s.
Proof.
  revert i. induction pre as [|s0 rest IH]; intros i Hno Hm j s Hj.
  { by rewrite lookup_nil in Hj. }
  apply not_elem_of_cons in Hno as [Hne Hno]. simpl in Hm.
  rewrite decide_False in Hm by done.
  destruct j as [|j]; simpl in Hj.
  - inversion Hj; subst s0. rewrite Nat.add_0_r.
    destruct (decide (s = "+")); [by left|]. right.
    destruct (length topic_parts <=? i)%nat; [done|].
    destruct (topic_parts !! i) as [t|]; [|done].
    destruct (decide (s ≠ t)) as [|Heq]; [done|].
    f_equal. destruct (decide (s = t)); [done|contradiction].
  - replace (i + S j)%nat with (S i + j)%nat by lia.
    apply IH; [done| |done].
    destruct (decide (s0 = "+")); [done|].
    destruct (length topic_parts <=? i)%nat; [done|].
    destruct (topic_parts !! i) as [t|]; [|done].
    by destruct (decide (s0 ≠ t)).
Qed.

(** X12: what the matcher computes for a pattern with a [#].  If the
    first [#] of the pattern is its token number k, the answer is true
    exactly when each of the k tokens before it is [+] or equals the topic
    token at the same index; the tokens after the [#] and the rest of the
    topic play no part.  So [#] alone matches every topic. *)
Theorem first_hash_decides subscription topic pre post :
  split slash subscription = pre ++ "#" :: post →
  "#" ∉ pre →
  (_topic_matches subscription topic = Some true ↔
   ∀ j s, pre !! j = Some s → s = "+" ∨ split slash topic !! j = Some s)
  ∧ (pre = [] → _topic_matches subscription topic = Some true).
Proof.
  intros Hs Hno.
  assert (_topic_matches subscription topic
          = match_parts 0 (pre ++ "#" :: post) (split slash topic)) as ->.
  { unfold _topic_matches, parts_match. rewrite Hs.
    rewrite (bool_decide_eq_true_2 ("#" ∈ pre ++ "#" :: post)).
    - by rewrite andb_false_r.
    - apply elem_of_app. right. by left. }
  split; [split|].
  - intros Hm j s Hj. by apply (match_parts_before_hash 0 pre post _ Hno Hm).
  - intros H. apply match_parts_hash. intros j s Hj.
    destruct (H j s Hj) as [?|?]; auto.
  - intros ->. done.
Qed.

Lemma first_hash_decides_witness :
  _topic_matches "#" "devices/42/status" = Some true.
Proof.
  apply (proj2 (first_hash_decides "#" "devices/42/status" [] []
                  eq_refl ltac:(apply not_elem_of_nil)) eq_refl).
Defined.

(** X13: every subscription pattern, with or without wildcards, matches
    the topic that is spelled like it. *)
Theorem topic_matches_itself subscription :
  _topic_matches subscription subscription = Some true.
Proof.
  unfold _topic_matches, parts_match.
  rewrite bool_decide_eq_false_2 by (intros H; by apply H). simpl.
  apply match_parts_accepts. intros j s Hj. right. right. done.
Qed.

Lemma dict_get_set_eq {A} k (v : A) d : dict_get k (dict_set k v d) = Some v.
Proof.
  induction d as [|[k' v'] d IH]; simpl.
  - by rewrite decide_True.
  - destruct (decide (k' = k)) as [->|Hne]; simpl.
    + by rewrite decide_True.
    + by rewrite decide_False.
Qed.

Lemma dict_get_set_ne {A} k k2 (v : A) d :
  k2 ≠ k → dict_get k2 (dict_set k v d) = dict_get k2 d.
Proof.
  intros Hne. induction d as [|[k' v'] d IH]; simpl.
  - by rewrite decide_False.
  - destruct (decide (k' = k)) as [->|Hk]; simpl.
    + by rewrite !decide_False.
    + destruct (decide (k' = k2)); [done|apply IH].
Qed.

Lemma dict_get_None {A} k (d : list (string * A)) :
  dict_get k d = None ↔ k ∉ d.*1.
Proof.
  induction d as [|[k' v'] d IH]; simpl.
  - split; [intros _; apply not_elem_of_nil|done].
  - rewrite not_elem_of_cons. destruct (decide (k' = k)) as [->|Hne].
    + split; [done|]. intros [H _]. done.
    + rewrite IH. split; [by intros ?; split|by intros [_ ?]].
Qed.

Lemma dict_set_keys {A} k (v : A) d :
  (dict_set k v d).*1 = if decide (k ∈ d.*1) then d.*1 else d.*1 ++ [k].
Proof.
  induction d as [|[k' v'] d IH].
  - cbn. destruct (decide (k ∈ [])) as [H|]; [by apply elem_of_nil in H|done].
  - cbn [dict_set]. destruct (decide (k' = k)) as [->|Hne].
    + rewrite !fmap_cons. cbn [fst]. by rewrite decide_True by (by left).
    + rewrite !fmap_cons. cbn [fst]. rewrite IH.
      destruct (decide (k ∈ d.*1)) as [Hin|Hnin].
      * by rewrite decide_True by (by right).
      * rewrite decide_False; [done|]. rewrite not_elem_of_cons. by split.
Qed.

Lemma dict_del_gone {A} k (d : list (string * A)) :
  NoDup d.*1 → k ∉ (dict_del k d).*1.
Proof.
  induction d as [|[k' v'] d IH]; intros Hnd; [apply not_elem_of_nil|].
  rewrite fmap_cons in Hnd. cbn [fst] in Hnd.
  apply NoDup_cons in Hnd as [Hk' Hnd]. cbn [dict_del].
  destruct (decide (k' = k)) as [->|Hne]; [done|].
  rewrite fmap_cons. cbn [fst]. rewrite not_elem_of_cons. split; [done|by apply IH].
Qed.

Lemma dict_del_other {A} k k2 (d : list (string * A)) :
  k2 ≠ k → dict_get k2 (dict_del k d) = dict_get k2 d.
Proof.
  intros Hne. induction d as [|[k' v'] d IH]; simpl; [done|].
  destruct (decide (k' = k)) as [->|Hk]; simpl.
  - by rewrite decide_False.
  - destruct (decide (k' = k2)); [done|apply IH].
Qed.

(** X14: subscriptions behave like a dictionary keyed by topic.  On a
    connected client whose transport accepts the call, [subscribe] makes the
    exact topic dispatch to the new handler, replaces an earlier handler for
    the same topic without adding a second entry, and leaves every other
    topic's handler alone; [unsubscribe] then removes the topic and nothing
    else; and when the client is not connected, or the transport refuses,
    both answer false and leave the client as it was. *)
Theorem subscriptions_are_a_dictionary topic h c :
  is_connected c = true →
  NoDup (message_callbacks c).*1 →
  let c1 := (subscribe true topic h c).2 in
  let c2 := (unsubscribe true topic c1).2 in
  (subscribe true topic h c).1 = true
  ∧ dict_get topic (message_callbacks c1) = Some h
  ∧ NoDup (message_callbacks c1).*1
  ∧ (topic ∈ (message_callbacks c).*1 →
     (message_callbacks c1).*1 = (message_callbacks c).*1)
  ∧ (∀ t, t ≠ topic →
       dict_get t (message_callbacks c1) = dict_get t (message_callbacks c)
       ∧ dict_get t (message_callbacks c2) = dict_get t (message_callbacks c))
  ∧ dict_get topic (message_callbacks c2) = None
  ∧ subscribe false topic h c = (false, c)
  ∧ unsubscribe false topic c = (false, c)
  ∧ subscribe true topic h (set_connected false c) = (false, set_connected false c)
  ∧ unsubscribe true topic (set_connected false c) = (false, set_connected false c).
Proof.
  intros Hconn Hnd c1 c2.
  assert (message_callbacks c1 = dict_set topic h (message_callbacks c)) as H1.
  { unfold c1, subscribe. by rewrite Hconn. }
  assert (is_connected c1 = true) as Hconn1.
  { unfold c1, subscribe. by rewrite Hconn. }
  assert (message_callbacks c2 = dict_del topic (message_callbacks c1)) as H2.
  { unfold c2, unsubscribe. by rewrite Hconn1. }
  assert (NoDup (message_callbacks c1).*1) as Hnd1.
  { rewrite H1, dict_set_keys. destruct (decide (topic ∈ (message_callbacks c).*1));
      [done|]. apply NoDup_app. split; [done|]. split; [|apply NoDup_singleton].
    intros x Hx Hx'. apply list_elem_of_singleton in Hx'. by subst x. }
  split; [unfold subscribe; by rewrite Hconn|].
  split; [rewrite H1; apply dict_get_set_eq|].
  split; [done|].
  split; [intros Hin; by rewrite H1, dict_set_keys, decide_True|].
  split.
  { intros t Ht. rewrite H2, dict_del_other by done.
    by rewrite H1, dict_get_set_ne. }
  split.
  { rewrite H2. apply dict_get_None. by apply dict_del_gone. }
  unfold subscribe, unsubscribe. rewrite Hconn. simpl. done.
Qed.

Lemma subscriptions_are_a_dictionary_witness :
  dict_get "devices/+/status"
    (message_callbacks (subscribe true "devices/+/status" 7%nat sample_client).2)
  = Some 7%nat.
Proof.
  apply (proj1 (proj2 (subscriptions_are_a_dictionary "devices/+/status" 7%nat
                         sample_client eq_refl
                         ltac:(simpl; apply NoDup_singleton)))).
Defined.

Lemma invoked_scan cbs topic payload :
  (length (invoked (scan_callbacks cbs topic payload)) ≤ 1)%nat.
Proof.
  induction cbs as [|[reg h] cbs IH]; simpl; [lia|].
  destruct (_topic_matches reg topic) as [[|]|]; simpl; [lia|done|lia].
Qed.

Lemma scan_callbacks_first cbs1 reg h cbs2 topic payload :
  (∀ r' h', (r', h') ∈ cbs1 → _topic_matches r' topic = Some false) →
  _topic_matches reg topic = Some true →
  scan_callbacks (cbs1 ++ (reg, h) :: cbs2) topic payload = [Invoke h topic payload].
Proof.
  induction cbs1 as [|[r0 h0] cbs1 IH]; intros Hbefore Hm; simpl.
  - by rewrite Hm.
  - rewrite (Hbefore r0 h0 ltac:(left)). apply IH; [|done].
    intros r' h' Hin. apply (Hbefore r' h'). by right.
Qed.

Lemma control_message_invokes_nothing
    (json_loads : string → option control_data) tr now text c :
  invoked (_handle_control_message json_loads tr now text c) = [].
Proof.
  unfold _handle_control_message.
  destruct (json_loads text) as [d|]; [|done].
  destruct (command d) as [cmd|]; [|done].
  destruct (truthy cmd); simpl; [|done].
  unfold publish.
  destruct (decide (cmd = JStr "restart")); [by destruct (is_connected c), tr|].
  destruct (decide (cmd = JStr "config")); [by destruct (is_connected c), tr|].
  destruct (decide (cmd = JStr "ping")); [by destruct (is_connected c), tr|].
  done.
Qed.

(** X15: an inbound message calls at most one callback.  A message on the
    client's own control topic calls none, whatever is subscribed; on any
    other topic a callback subscribed under exactly that topic is called,
    before any wildcard pattern is looked at; failing that, the callback of
    the first pattern, in subscription order, that matches the topic is
    called, and no later one. *)
Theorem dispatch_calls_at_most_one
    (json_loads : string → option control_data) tr now topic payload c :
  (length (invoked (_on_message json_loads tr now topic payload c)) ≤ 1)%nat
  ∧ (topic = control_topic c →
     invoked (_on_message json_loads tr now topic payload c) = [])
  ∧ (∀ text h,
       payload = Some text → topic ≠ control_topic c →
       dict_get topic (message_callbacks c) = Some h →
       _on_message json_loads tr now topic payload c = [Invoke h topic text])
  ∧ (∀ text cbs1 reg h cbs2,
       payload = Some text → topic ≠ control_topic c →
       dict_get topic (message_callbacks c) = None →
       message_callbacks c = cbs1 ++ (reg, h) :: cbs2 →
       (∀ r' h', (r', h') ∈ cbs1 → _topic_matches r' topic = Some false) →
       _topic_matches reg topic = Some true →
       _on_message json_loads tr now topic payload c = [Invoke h topic text]).
Proof.
  split; [|split; [|split]].
  - unfold _on_message. destruct payload as [text|]; [|simpl; lia].
    destruct (decide (topic = control_topic c)).
    + rewrite control_message_invokes_nothing. simpl. lia.
    + destruct (dict_get topic (message_callbacks c)); [simpl; lia|].
      apply invoked_scan.
  - intros ->. unfold _on_message. destruct payload as [text|]; [|done].
    rewrite decide_True by done. apply control_message_invokes_nothing.
  - intros text h -> Hne Hget. unfold _on_message.
    rewrite decide_False by done. by rewrite Hget.
  - intros text cbs1 reg h cbs2 -> Hne Hget Hcbs Hbefore Hm. unfold _on_message.
    rewrite decide_False by done. rewrite Hget, Hcbs.
    by apply scan_callbacks_first.
Qed.

Lemma dispatch_calls_at_most_one_witness :
  _on_message sample_loads rc_success 4 "devices/42/status" (Some "up") sample_client
  = [Invoke 1%nat "devices/42/status" "up"].
Proof.
  apply (proj2 (proj2 (proj2 (dispatch_calls_at_most_one sample_loads rc_success 4
           "devices/42/status" (Some "up") sample_client)))
         "up" [] "devices/+/status" 1%nat []);
    try reflexivity.
  - discriminate.
  - intros r' h' Hin. by apply elem_of_nil in Hin.
Defined.
End ClientMore.

(* ===================================================================== *)
(** * Connection life cycle, reconnection and the device client            *)
(* ===================================================================== *)
Section ConnectionFacts.
Import MQTTClient.
Implicit Types (c : client).
Local Open Scope Q_scope.

Lemma next_delay_bounds (d : Q) :
  0 <= d → d <= reconnect_max_delay →
  d <= next_delay d ∧ next_delay d <= reconnect_max_delay.
Proof.
  unfold next_delay, reconnect_max_delay. intros H0 H60.
  destruct (Q.min_spec (d * (3 # 2)) 60) as [[H1 ->]|[H1 ->]]; split; lra.
Qed.

Lemma next_delay_proper (d d' : Q) : d == d' → next_delay d == next_delay d'.
Proof. intros H. unfold next_delay. by rewrite H. Qed.

Lemma next_delay_min (a : Q) :
  0 <= a →
  next_delay (Qmin a reconnect_max_delay) == Qmin (a * (3 # 2)) reconnect_max_delay.
Proof.
  unfold next_delay, reconnect_max_delay. intros H0.
  destruct (Q.min_spec a 60) as [[H1 ->]|[H1 ->]]; [reflexivity|].
  destruct (Q.min_spec (60 * (3 # 2)) 60) as [[H2 ->]|[H2 ->]]; [lra|].
  destruct (Q.min_spec (a * (3 # 2)) 60) as [[H3 ->]|[H3 ->]]; [lra|reflexivity].
Qed.

(** The sleeps of a loop started at [d], for [d] within the bounds. *)
Lemma reconnect_loop_bounds attempts (d : Q) :
  0 <= d → d <= reconnect_max_delay →
  Forall (λ s, d <= s ∧ s <= reconnect_max_delay) (_reconnect_loop d attempts)
  ∧ ∀ (i : nat) s1 s2,
      _reconnect_loop d attempts !! i = Some s1 →
      _reconnect_loop d attempts !! S i = Some s2 → s1 <= s2.
Proof.
  revert d. induction attempts as [|ok later IH]; intros d H0 Hmax.
  { split; [constructor|]. intros i s1 s2 H. cbn in H. done. }
  cbn [_reconnect_loop].
  destruct (next_delay_bounds d H0 Hmax) as [Hle Hn].
  destruct (IH (next_delay d) ltac:(lra) Hn) as [HF Hmono].
  destruct ok.
  - split; [constructor; [split; [lra|done]|constructor]|].
    intros i s1 s2 _ H. by destruct i.
  - split.
    + constructor; [split; [lra|done]|].
      eapply Forall_impl; [exact HF|]. intros s [? ?]. split; [lra|done].
    + intros [|i] s1 s2 H1 H2.
      * cbn in H1. inversion H1; subst s1. cbn in H2.
        destruct (_reconnect_loop (next_delay d) later) as [|s l] eqn:Hl; [done|].
        cbn in H2. inversion H2; subst s2.
        apply Forall_cons in HF as [[? ?] _]. lra.
      * cbn in H1, H2. by apply (Hmono i).
Qed.

Lemma reconnect_loop_closed_form attempts (d a : Q) (i : nat) s :
  0 <= a → d == Qmin a reconnect_max_delay →
  _reconnect_loop d attempts !! i = Some s →
  s == Qmin (a * (3 # 2) ^ Z.of_nat i) reconnect_max_delay.
Proof.
  revert d a i. induction attempts as [|ok later IH]; intros d a i H0 Hd Hs.
  { cbn in Hs. done. }
  cbn [_reconnect_loop] in Hs. destruct i as [|i].
  - cbn in Hs. inversion Hs; subst s. rewrite Hd. simpl.
    by rewrite Qmult_1_r.
  - cbn in Hs. destruct ok; [cbn in Hs; done|].
    assert (next_delay d == Qmin (a * (3 # 2)) reconnect_max_delay) as Hd'.
    { rewrite (next_delay_proper _ _ Hd). by apply next_delay_min. }
    rewrite (IH _ (a * (3 # 2)) i ltac:(lra) Hd' Hs).
    replace (Z.of_nat (S i)) with (1 + Z.of_nat i)%Z by lia.
    rewrite Qpower_plus by done. simpl (_ ^ 1).
    by rewrite Qmult_assoc.
Qed.

Lemma reconnect_loop_length attempts (d : Q) :
  (length (_reconnect_loop d attempts) ≤ length attempts)%nat
  ∧ (∀ i : nat, attempts !! i = Some true →
                (length (_reconnect_loop d attempts) ≤ S i)%nat)
  ∧ (Forall (λ ok, ok = false) attempts →
     length (_reconnect_loop d attempts) = length attempts).
Proof.
  revert d. induction attempts as [|ok later IH]; intros d.
  { split; [done|]. split; [|done]. intros i H. cbn in H. done. }
  cbn [_reconnect_loop]. destruct (IH (next_delay d)) as (H1 & H2 & H3).
  destruct ok; simpl.
  - split; [lia|]. split; [intros; lia|]. intros HF.
    apply Forall_cons in HF as [? _]. done.
  - split; [lia|]. split.
    + intros [|i] Hi; [done|]. cbn in Hi. specialize (H2 i Hi). lia.
    + intros HF. apply Forall_cons in HF as [_ HF]. by rewrite H3.
Qed.

(** X16: the reconnection loop sleeps first 5 seconds and then, after each
    failed attempt, one and a half times as long, but never more than 60: the
    sleep before attempt number i (from 0) is min(5 * 1.5^i, 60), so the
    sleeps never decrease, all lie between 5 and 60, and are 60 from the
    seventh failure on; the loop makes no attempt after the first one that
    succeeds. *)
Theorem reconnect_backoff attempts :
  let sleeps := _reconnect_loop reconnect_delay attempts in
  Forall (λ s, 5 <= s ∧ s <= 60) sleeps
  ∧ (∀ (i : nat) s1 s2,
       sleeps !! i = Some s1 → sleeps !! S i = Some s2 → s1 <= s2)
  ∧ (∀ (i : nat) s, sleeps !! i = Some s → s == Qmin (5 * (3 # 2) ^ Z.of_nat i) 60)
  ∧ (∀ (i : nat) s, (7 ≤ i)%nat → sleeps !! i = Some s → s == 60)
  ∧ (length sleeps ≤ length attempts)%nat
  ∧ (∀ i : nat, attempts !! i = Some true → (length sleeps ≤ S i)%nat)
  ∧ (Forall (λ ok, ok = false) attempts → length sleeps = length attempts).
Proof.
  intros sleeps.
  destruct (reconnect_loop_bounds attempts reconnect_delay) as [HF Hmono];
    [unfold reconnect_delay; lra|unfold reconnect_delay, reconnect_max_delay; lra|].
  destruct (reconnect_loop_length attempts reconnect_delay) as (Hl1 & Hl2 & Hl3).
  assert (∀ (i : nat) s, sleeps !! i = Some s →
            s == Qmin (5 * (3 # 2) ^ Z.of_nat i) 60) as Hclosed.
  { intros i s Hs.
    apply (reconnect_loop_closed_form attempts reconnect_delay 5 i s); [lra| |done].
    unfold reconnect_delay, reconnect_max_delay.
    destruct (Q.min_spec 5 60) as [[? ->]|[? ->]]; [reflexivity|lra]. }
  split; [exact HF|]. split; [exact Hmono|]. split; [exact Hclosed|].
  split; [|done].
  intros i s Hi Hs.
  assert (∀ k : nat, ∀ s', sleeps !! (7 + k)%nat = Some s' → s' == 60) as Hfrom7.
  { induction k as [|k IHk]; intros s' Hs'.
    - rewrite (Hclosed _ _ Hs'). reflexivity.
    - replace (7 + S k)%nat with (S (7 + k)) in Hs' by lia.
      destruct (lookup_lt_is_Some_2 sleeps (7 + k)) as [s0 Hs0].
      { apply lookup_lt_Some in Hs'. lia. }
      pose proof (Hmono _ _ _ Hs0 Hs') as Hle.
      rewrite (IHk _ Hs0) in Hle.
      apply Forall_forall with (x := s') in HF;
        [|by eapply list_elem_of_lookup_2].
      destruct HF as [_ Hmax]. unfold reconnect_max_delay in Hmax.
      apply Qle_antisym; done. }
  apply (Hfrom7 (i - 7)%nat). by replace (7 + (i - 7))%nat with i by lia.
Qed.
End ConnectionFacts.

Section LifeCycleFacts.
Import MQTTClient.
Implicit Types (c : client).

(** X17: the connection flag gates all traffic.  After a disconnect
    notification, and after a connect notification with a non-zero code,
    publish, subscribe and unsubscribe answer false, hand nothing to the
    transport and leave the client as it is.  A connect notification with
    code 0 makes two transport calls, the subscription to the client's own
    control topic and the retained online status; the callbacks registered
    before are still in the table but are not subscribed again; from then on
    publish hands its message to the transport.  The reconnection loop is
    started on a disconnect with a non-zero code and only then. *)
Theorem connection_flag_gates_traffic c tr topic m h now :
  (∀ rc, let c' := (_on_disconnect rc c).1 in
         publish tr topic m c' = (false, [Log warning])
         ∧ subscribe true topic h c' = (false, c')
         ∧ unsubscribe true topic c' = (false, c')
         ∧ message_callbacks c' = message_callbacks c)
  ∧ (∀ rc, rc ≠ 0 →
         let r := _on_connect rc now c in
         r.2 = [] ∧ publish tr topic m r.1 = (false, [Log warning])
         ∧ subscribe true topic h r.1 = (false, r.1))
  ∧ (let r := _on_connect 0 now c in
     r.2 = [CSubscribe (control_topic c) 1;
            CPublishStatus (status_topic c) "online" now 1 true]
     ∧ message_callbacks r.1 = message_callbacks c
     ∧ published (publish tr topic m r.1).2 = [Publish topic m]
     ∧ ((publish tr topic m r.1).1 = true ↔ tr = rc_success))
  ∧ (∀ rc, (_on_disconnect rc c).2 = [CStartReconnect] ↔ rc ≠ 0).
Proof.
  split; [|split; [|split]].
  - intros rc c'. done.
  - intros rc Hrc r. unfold r, _on_connect. by rewrite decide_False.
  - simpl. split; [done|]. split; [done|]. split; [by destruct tr|].
    destruct tr; simpl; split; intros H; done.
  - intros rc. unfold _on_disconnect. simpl.
    destruct (decide (rc = 0)); split; intros H; done.
Qed.

(** X18: [disconnect] that runs through makes its transport calls in this
    order: the retained offline status, only if the client is connected, then
    the loop stop, then the disconnect.  If the status publish raises, the
    result is false and neither the loop stop nor the disconnect is made; and
    if [client.connect] raises in [connect], neither the network loop nor the
    heartbeat thread is started. *)
Theorem disconnect_announces_before_teardown now c :
  (∀ raises, (disconnect raises now c).1 = true →
       (disconnect raises now c).2
       = (if is_connected c
          then [CPublishStatus (status_topic c) "offline" now 1 true] else [])
         ++ [CLoopStop; CDisconnect])
  ∧ (is_connected c = true →
     disconnect (Some 0%nat) now c
     = (false, [CPublishStatus (status_topic c) "offline" now 1 true]))
  ∧ (∀ raises, (disconnect raises now c).1 = false →
       CDisconnect ∈ (disconnect raises now c).2 →
       raises = Some (if is_connected c then 2%nat else 1%nat))
  ∧ connect (Some 0%nat) c = (false, [CConnect])
  ∧ (∀ raises, (connect raises c).1 = true →
       (connect raises c).2 = [CConnect; CLoopStart; CStartHeartbeat]).
Proof.
  unfold disconnect, connect, run_calls.
  split; [|split; [|split; [|split]]].
  - intros [n|]; [|done].
    destruct (n <? _)%nat; [done|done].
  - intros ->. done.
  - intros [n|]; [|done]. destruct (is_connected c); simpl.
    + destruct n as [|[|[|n]]]; simpl; intros Hf Hin; try done.
      * apply list_elem_of_singleton in Hin. discriminate Hin.
      * apply elem_of_cons in Hin as [Hin|Hin]; [discriminate Hin|].
        apply list_elem_of_singleton in Hin. discriminate Hin.
    + destruct n as [|[|n]]; simpl; intros Hf Hin; try done.
      apply list_elem_of_singleton in Hin. discriminate Hin.
  - done.
  - intros [n|]; [|done]. by destruct (n <? _)%nat.
Qed.

Lemma disconnect_announces_before_teardown_witness :
  disconnect (Some 0%nat) 9 sample_client
  = (false, [CPublishStatus (status_topic sample_client) "offline" 9 1 true]).
Proof.
  apply (proj1 (proj2 (disconnect_announces_before_teardown 9 sample_client))).
  reflexivity.
Defined.
End LifeCycleFacts.

Section DeviceClientFacts.
Import MQTTClient DeviceClient.
Implicit Types (c : client).

Lemma string_length_append (s1 s2 : string) :
  String.length (s1 +:+ s2) = (String.length s1 + String.length s2)%nat.
Proof. induction s1 as [|a s1 IH]; simpl; [done|by rewrite IH]. Qed.

Lemma control_topic_not_broadcast c : control_topic c ≠ "devices/broadcast".
Proof.
  unfold control_topic. simpl. intros H.
  injection H as H.
  destruct (device_id c) as [|a [|b s]]; simpl in H.
  - discriminate H.
  - injection H as _ H. discriminate H.
  - apply (f_equal String.length) in H. simpl in H.
    rewrite string_length_append in H. simpl in H. lia.
Qed.

End DeviceClientFacts.

(* ===================================================================== *)
(** * The configuration store                                             *)
(* ===================================================================== *)
Section ConfigFacts.
Import MQTTClient DeviceConfig.
Implicit Types (parts : list string) (v : value) (d : list (string * value)).

Lemma split_not_nil sep s : split sep s ≠ [].
Proof.
  destruct s as [|a s]; simpl; [done|].
  destruct (decide (a = sep)); [done|]. by destruct (split sep s).
Qed.

Lemma get_path_empty_dict parts : parts ≠ [] → get_path parts (VDict []) = None.
Proof. by destruct parts. Qed.

Lemma set_path_cons2 part p2 rest v d :
  set_path (part :: p2 :: rest) v d
  = match dict_get part d with
    | None =>
        (dict_set part (VDict (set_path (p2 :: rest) v []).1) d,
         (set_path (p2 :: rest) v []).2)
    | Some (VDict sub) =>
        (dict_set part (VDict (set_path (p2 :: rest) v sub).1) d,
         (set_path (p2 :: rest) v sub).2)
    | Some _ => (d, false)
    end.
Proof. done. Qed.

(** A path into a dictionary without entries meets nothing it could trip
    over. *)
Lemma set_path_fresh parts v : parts ≠ [] → (set_path parts v []).2 = true.
Proof.
  induction parts as [|part [|p2 rest] IH]; intros Hne; [done|done|].
  rewrite set_path_cons2. cbn [dict_get snd]. by apply IH.
Qed.

Lemma set_path_failure parts v d :
  (set_path parts v d).2 = false → (set_path parts v d).1 = d.
Proof.
  revert d. induction parts as [|part [|p2 rest] IH]; intros d; [done|done|].
  rewrite set_path_cons2.
  destruct (dict_get part d) as [[| | | | |sub]|] eqn:Hget; cbn [fst snd]; try done.
  - intros Hf. rewrite (IH sub Hf).
    clear -Hget. induction d as [|[k x] d IHd]; [done|]. simpl in *.
    destruct (decide (k = part)) as [->|Hne]; [by inversion Hget|].
    by rewrite IHd.
  - intros Hf. by rewrite set_path_fresh in Hf.
Qed.

Lemma set_path_then_get parts v d :
  (set_path parts v d).2 = true →
  get_path parts (VDict (set_path parts v d).1)
  = match v with VNone => None | _ => Some v end.
Proof.
  revert d. induction parts as [|part [|p2 rest] IH]; intros d; [done| |].
  - intros _. cbn [set_path fst get_path]. rewrite dict_get_set_eq.
    by destruct v.
  - rewrite set_path_cons2.
    destruct (dict_get part d) as [[| | | | |sub]|] eqn:Hget; cbn [fst snd]; try done.
    + intros Ht. cbn [get_path]. rewrite dict_get_set_eq. by apply IH.
    + intros Ht. cbn [get_path]. rewrite dict_get_set_eq. by apply IH.
Qed.

(** X20: writing a value under a dotted key and reading the same key
    gives the value back, whatever the default: when [set] answers true,
    [get] of that key returns the value, unless the value is None, which
    reads as the default.  Dictionaries missing on the way are created, so
    [set] into an empty configuration always answers true. *)
Theorem set_then_get key v default config :
  (set key v config).2 = true →
  get key default (set key v config).1
  = match v with VNone => default | _ => v end.
Proof.
  intros Ht. unfold get, set in *.
  rewrite set_path_then_get by done. by destruct v.
Qed.

Lemma set_then_get_witness :
  get "network.backend_url" VNone
    (set "network.backend_url" (VStr "http://10.0.0.1:5000")
       [("network", VDict [("timeout", VNum 10)])]).1
  = VStr "http://10.0.0.1:5000".
Proof.
  apply (set_then_get "network.backend_url" (VStr "http://10.0.0.1:5000") VNone
           [("network", VDict [("timeout", VNum 10)])]).
  reflexivity.
Defined.

(** X21: [set] is all or nothing.  When it answers false the
    configuration is what it was: no dictionary has been created on the way.
    It answers false whenever a string, number, boolean or list stands on the
    way to the key, and it always answers true on an empty configuration. *)
Theorem set_is_all_or_nothing key v config :
  ((set key v config).2 = false → (set key v config).1 = config)
  ∧ (set key v []).2 = true
  ∧ (∀ before part after leaf,
       split dot key = before ++ part :: after → after ≠ [] →
       get_path (before ++ [part]) (VDict config) = Some leaf →
       (∀ entries, leaf ≠ VDict entries) →
       (set key v config).2 = false).
Proof.
  split; [apply set_path_failure|]. split; [apply set_path_fresh, split_not_nil|].
  intros before part after leaf Hs Hafter Hget Hleaf. unfold set. rewrite Hs.
  clear Hs. revert config Hget.
  induction before as [|b before IH]; intros config Hget.
  - destruct after as [|a2 after]; [done|]. cbn [app]. rewrite set_path_cons2.
    cbn [app get_path] in Hget.
    destruct (dict_get part config) as [[| | | | |sub]|]; try done.
    inversion Hget. subst leaf. by specialize (Hleaf sub).
  - cbn [app] in *. destruct (before ++ part :: after) as [|x l] eqn:Hl.
    { by destruct before. }
    rewrite set_path_cons2. cbn [get_path] in Hget.
    destruct (dict_get b config) as [[| | | | |sub]|]; try done.
    cbn [snd]. by apply IH.
Qed.

Lemma set_is_all_or_nothing_witness :
  (set "device.name.short" (VStr "cam") [("device", VDict [("name", VStr "Cam 1")])]).1
  = [("device", VDict [("name", VStr "Cam 1")])].
Proof.
  apply (proj1 (set_is_all_or_nothing "device.name.short" (VStr "cam")
                  [("device", VDict [("name", VStr "Cam 1")])])).
  reflexivity.
Defined.

Lemma set_path_other_paths p q v d :
  ¬ p `prefix_of` q → ¬ q `prefix_of` p →
  get_path q (VDict (set_path p v d).1) = get_path q (VDict d).
Proof.
  revert q d. induction p as [|part [|p2 rest] IH]; intros q d Hpq Hqp.
  - exfalso. apply Hpq. apply prefix_nil.
  - destruct q as [|k q]; [exfalso; apply Hqp, prefix_nil|].
    cbn [set_path fst get_path].
    destruct (decide (k = part)) as [->|Hne].
    + exfalso. apply Hpq. by apply prefix_cons, prefix_nil.
    + by rewrite dict_get_set_ne.
  - destruct q as [|k q]; [exfalso; apply Hqp, prefix_nil|].
    rewrite set_path_cons2.
    destruct (decide (k = part)) as [->|Hne].
    + assert (¬ (p2 :: rest) `prefix_of` q) as Hpq'.
      { intros H. apply Hpq. by apply prefix_cons. }
      assert (¬ q `prefix_of` (p2 :: rest)) as Hqp'.
      { intros H. apply Hqp. by apply prefix_cons. }
      destruct (dict_get part d) as [[| | | | |sub]|] eqn:Hget; cbn [fst]; try done.
      * cbn [get_path]. rewrite dict_get_set_eq, Hget. by apply IH.
      * cbn [get_path]. rewrite dict_get_set_eq, Hget.
        rewrite IH by done. apply get_path_empty_dict.
        intros ->. apply Hqp', prefix_nil.
    + destruct (dict_get part d) as [[| | | | |sub]|] eqn:Hget; cbn [fst]; try done.
      * cbn [get_path]. by rewrite dict_get_set_ne.
      * cbn [get_path]. by rewrite dict_get_set_ne.
Qed.

(** X22: [set] touches only its own key.  For a key whose path neither
    begins with the path written nor is a beginning of it, [get] answers
    after the [set], successful or not, what it answered before. *)
Theorem set_keeps_other_keys key key' v default config :
  ¬ split dot key `prefix_of` split dot key' →
  ¬ split dot key' `prefix_of` split dot key →
  get key' default (set key v config).1 = get key' default config.
Proof.
  intros H1 H2. unfold get, set. by rewrite set_path_other_paths.
Qed.

Lemma set_keeps_other_keys_witness :
  get "mqtt.port" VNone
    (set "mqtt.broker" (VStr "broker.local")
       [("mqtt", VDict [("port", VNum 1883)])]).1
  = VNum 1883.
Proof.
  rewrite (set_keeps_other_keys "mqtt.broker" "mqtt.port" (VStr "broker.local") VNone
             [("mqtt", VDict [("port", VNum 1883)])]).
  - reflexivity.
  - simpl. intros [l Hl]. discriminate Hl.
  - simpl. intros [l Hl]. discriminate Hl.
Defined.
End ConfigFacts.

Section ConfigUpdateFacts.
Import MQTTClient DeviceConfig.
Implicit Types (v : value) (source target : list (string * value)).

(** The assignment made for one entry of the source. *)
Lemma update_dict_cons target key v rest :
  _update_dict target ((key, v) :: rest)
  = _update_dict
      match v, dict_get key target with
      | VDict s, Some (VDict sub) => dict_set key (VDict (_update_dict sub s)) target
      | _, _ => dict_set key v target
      end rest.
Proof. by destruct v. Qed.

Lemma update_dict_nil target : _update_dict target [] = target.
Proof. done. Qed.

Lemma update_dict_absent source target k :
  dict_get k source = None →
  dict_get k (_update_dict target source) = dict_get k target.
Proof.
  revert target. induction source as [|[key v] rest IH]; intros target Hk; [done|].
  rewrite update_dict_cons. simpl in Hk.
  destruct (decide (key = k)) as [->|Hne]; [done|].
  rewrite IH by done.
  destruct v as [| | | | |s]; try by rewrite dict_get_set_ne.
  destruct (dict_get key target) as [[| | | | |sub]|]; by rewrite dict_get_set_ne.
Qed.

(** X23: [update] merges key by key.  After it a key that the new
    dictionary does not have reads as before; a key it has with a dictionary
    value, where the configuration has a dictionary too, reads as the merge of
    the two, made by the same rule; any other key it has reads as the new
    value.  A [config_dict] that is not a dictionary is refused and nothing
    changes. *)
Theorem update_merges_key_by_key source target k :
  NoDup source.*1 →
  (update (VDict source) target).2 = true
  ∧ dict_get k (update (VDict source) target).1
    = match dict_get k source with
      | None => dict_get k target
      | Some (VDict s) =>
          match dict_get k target with
          | Some (VDict sub) => Some (VDict (_update_dict sub s))
          | _ => Some (VDict s)
          end
      | Some v => Some v
      end
  ∧ (∀ v, (∀ s, v ≠ VDict s) → update v target = (target, false)).
Proof.
  intros Hnd. split; [done|]. split; [|intros v Hv; destruct v; try done; by specialize (Hv entries)].
  cbn [update fst]. revert target.
  induction source as [|[key v] rest IH]; intros target; [done|].
  rewrite fmap_cons in Hnd. cbn [fst] in Hnd. apply NoDup_cons in Hnd as [Hkey Hnd].
  rewrite update_dict_cons. cbn [dict_get].
  destruct (decide (key = k)) as [->|Hne].
  - rewrite update_dict_absent by (by apply dict_get_None).
    destruct v as [| | | | |s]; try by rewrite dict_get_set_eq.
    destruct (dict_get k target) as [[| | | | |sub]|]; by rewrite dict_get_set_eq.
  - rewrite IH by done.
    assert (dict_get k
              match v, dict_get key target with
              | VDict s, Some (VDict sub) =>
                  dict_set key (VDict (_update_dict sub s)) target
              | _, _ => dict_set key v target
              end = dict_get k target) as ->; [|done].
    destruct v as [| | | | |s]; try by rewrite dict_get_set_ne.
    destruct (dict_get key target) as [[| | | | |sub]|]; by rewrite dict_get_set_ne.
Qed.

Lemma update_merges_key_by_key_witness :
  dict_get "camera"
    (update (VDict [("camera", VDict [("quality", VNum 80)])])
       [("camera", VDict [("fps", VNum 15); ("quality", VNum 90)])]).1
  = Some (VDict [("fps", VNum 15); ("quality", VNum 80)]).
Proof.
  apply (proj1 (proj2 (update_merges_key_by_key
           [("camera", VDict [("quality", VNum 80)])]
           [("camera", VDict [("fps", VNum 15); ("quality", VNum 90)])] "camera"
           ltac:(simpl; apply NoDup_singleton)))).
Defined.
End ConfigUpdateFacts.

(* ===================================================================== *)
(** * Attendance deduplication for one subject                            *)
(* ===================================================================== *)
Section AttendanceDedup.
Import DataProcessor.
Implicit Types (p : processor) (it : item) (pre mid rest : list item).

Lemma processing_loop_prefix pre rest p :
  processing_queue p = pre ++ rest →
  _processing_loop (length pre) p
  = (set_queue rest (process_all pre p).1, (process_all pre p).2).
Proof.
  revert p. induction pre as [|it pre IH]; intros p Hq.
  - simpl in *. by rewrite <- Hq, set_queue_same.
  - cbn [length _processing_loop process_all].
    rewrite (loop_turn_cons it (pre ++ rest) p Hq), process_item_set_queue.
    cbn [fst snd]. rewrite IH by done. rewrite process_all_set_queue.
    cbn [fst snd]. by rewrite set_queue_set_queue.
Qed.

Lemma reports_for_app uid evs1 evs2 :
  reports_for uid (evs1 ++ evs2) = reports_for uid evs1 ++ reports_for uid evs2.
Proof. unfold reports_for. apply filter_app. Qed.

Lemma reports_for_no_times uid evs :
  attendance_times uid evs = [] → reports_for uid evs = [].
Proof.
  unfold attendance_times, reports_for.
  induction evs as [|e evs IH]; [done|]. intros H.
  destruct e as [l|u dev t m loc st| |]; simpl in H;
    try (rewrite filter_cons_False by (simpl; done); by apply IH).
  destruct (decide (u = uid)) as [->|Hne]; [done|].
  rewrite filter_cons_False; [by apply IH|].
  simpl. by rewrite bool_decide_eq_false_2.
Qed.

Lemma reports_for_own uid dev t m loc st :
  reports_for uid [PostAttendance uid dev t m loc st]
  = [PostAttendance uid dev t m loc st].
Proof.
  unfold reports_for. rewrite filter_cons_True; [done|].
  simpl. by rewrite bool_decide_eq_true_2.
Qed.

(** Items that do not carry the subject leave its reports and its cooldown
    entry alone. *)
Lemma process_all_unconcerned uid mid p :
  Forall (λ it, concerns uid it = false) mid →
  reports_for uid (process_all mid p).2 = []
  ∧ last_attendance_time (process_all mid p).1 !! uid
    = last_attendance_time p !! uid
  ∧ min_attendance_interval (process_all mid p).1 = min_attendance_interval p
  ∧ device_id (process_all mid p).1 = device_id p.
Proof.
  revert p. induction mid as [|it mid IH]; intros p HF; [done|].
  apply Forall_cons in HF as [Hit HF]. cbn [process_all fst snd].
  destruct (IH (_process_item it p).1 HF) as (Hr & Hl & Hw & Hd).
  destruct (process_item_queue it p) as (_ & _ & Hw' & Hd').
  destruct (process_item_subject it p uid) as [[Ht Hl']|(Hc & _)]; [|congruence].
  rewrite reports_for_app, Hr, (reports_for_no_times _ _ Ht).
  split; [done|]. split; [congruence|]. split; congruence.
Qed.

(** C5, as amended: two attendance items for the same subject in the
    queue, with no attendance item for that subject between them (items of
    other kinds and for other subjects may stand between), the first of them
    accepted: the subject has no cooldown time yet, or one at least the window
    before the first item.  The consumer reports the first and makes its time
    the subject's cooldown time.  If the second item is less than the window
    after the first, nothing more is reported for the subject and the cooldown
    time stays that of the first; if it is the window or more after it, it is
    reported too and its time becomes the cooldown time. *)
Theorem attendance_dedup_window p uid a1 a2 (md1 md2 : metadata) t1 t2 mid rest :
  truthy_id (user_id a1) = Some uid →
  truthy_id (user_id a2) = Some uid →
  Forall (λ it, concerns uid it = false) mid →
  processing_queue p
  = mk_item "attendance" (AttendanceData a1) md1 t1
    :: mid ++ mk_item "attendance" (AttendanceData a2) md2 t2 :: rest →
  (∀ last_time, last_attendance_time p !! uid = Some last_time →
                usec (min_attendance_interval p) ≤ t1 - last_time) →
  let r1 := _processing_loop 1 p in
  let r := _processing_loop (2 + length mid) p in
  let report a (md : metadata) t :=
    PostAttendance uid (device_id p) t
      (default "manual" (verification_method a))
      (default "" (location md))
      (default "present" (att_status a)) in
  reports_for uid r1.2 = [report a1 md1 t1]
  ∧ last_attendance_time r1.1 !! uid = Some t1
  ∧ (t2 - t1 < usec (min_attendance_interval p) →
     reports_for uid r.2 = [report a1 md1 t1]
     ∧ last_attendance_time r.1 !! uid = Some t1)
  ∧ (usec (min_attendance_interval p) ≤ t2 - t1 →
     reports_for uid r.2 = [report a1 md1 t1; report a2 md2 t2]
     ∧ last_attendance_time r.1 !! uid = Some t2).
Proof.
  intros Hu1 Hu2 Hmid Hq Hfirst r1 r report.
  set (it1 := mk_item "attendance" (AttendanceData a1) md1 t1) in *.
  set (it2 := mk_item "attendance" (AttendanceData a2) md2 t2) in *.
  set (p1 := set_last_attendance_time (<[uid := t1]> (last_attendance_time p)) p).
  assert (_process_item it1 p = (p1, [report a1 md1 t1])) as H1.
  { unfold it1. rewrite (process_attendance_item _ _ _ _ _ Hu1).
    destruct (last_attendance_time p !! uid) as [last_time|] eqn:Hl; [|done].
    unfold total_seconds_lt. rewrite bool_decide_eq_false_2; [done|].
    specialize (Hfirst last_time eq_refl). lia. }
  assert (r1 = (set_queue (mid ++ it2 :: rest) p1, [report a1 md1 t1])) as Hr1.
  { unfold r1. pose proof (processing_loop_prefix [it1] (mid ++ it2 :: rest) p Hq) as E.
    cbn [length] in E. rewrite E.
    cbn [process_all fst snd]. by rewrite H1, app_nil_r. }
  destruct (process_all_unconcerned uid mid p1 Hmid) as (Hmr & Hml & Hmw & Hmd).
  set (p2 := (process_all mid p1).1) in *.
  assert (last_attendance_time p2 !! uid = Some t1) as Hl2.
  { rewrite Hml. unfold p1. simpl. apply lookup_insert_eq. }
  assert (r = (set_queue rest (_process_item it2 p2).1,
               [report a1 md1 t1] ++ (process_all mid p1).2 ++ (_process_item it2 p2).2))
    as Hr.
  { unfold r.
    replace (2 + length mid)%nat with (length (it1 :: mid ++ [it2]))
      by (simpl; rewrite length_app; simpl; lia).
    rewrite (processing_loop_prefix (it1 :: mid ++ [it2]) rest p)
      by (rewrite Hq; simpl; by rewrite <- app_assoc).
    cbn [process_all fst snd]. rewrite H1. cbn [fst snd].
    rewrite process_all_app. cbn [process_all fst snd].
    fold p2. by rewrite app_nil_r. }
  assert (_process_item it2 p2
          = if bool_decide (t2 - t1 < usec (min_attendance_interval p))
            then (p2, [Log info])
            else (set_last_attendance_time (<[uid := t2]> (last_attendance_time p2)) p2,
                  [report a2 md2 t2])) as H2.
  { unfold it2. rewrite (process_attendance_item _ _ _ _ _ Hu2), Hl2.
    unfold total_seconds_lt, report. by rewrite Hmw, Hmd. }
  assert (reports_for uid [Log info] = []) as Hlog by done.
  split; [rewrite Hr1; apply reports_for_own|].
  split; [rewrite Hr1; simpl; apply lookup_insert_eq|].
  split.
  - intros Hin. rewrite Hr, H2, bool_decide_eq_true_2 by done. cbn [fst snd].
    rewrite !reports_for_app, Hmr, Hlog. unfold report.
    rewrite reports_for_own. split; [done|]. exact Hl2.
  - intros Hout. rewrite Hr, H2, bool_decide_eq_false_2 by lia. cbn [fst snd].
    rewrite !reports_for_app, Hmr. unfold report.
    rewrite !reports_for_own. split; [done|].
    simpl. apply lookup_insert_eq.
Qed.

Lemma attendance_dedup_window_witness :
  let a u := mk_attendance (Some u) None None in
  let p := mk_processor "dev001"
             [mk_item "attendance" (AttendanceData (a "u17")) no_metadata (usec 10);
              mk_item "sensor" (RawData "21.5") no_metadata (usec 20);
              mk_item "attendance" (AttendanceData (a "u18")) no_metadata (usec 30);
              mk_item "attendance" (AttendanceData (a "u17")) no_metadata (usec 40)]
             100 ∅ 60 false in
  reports_for "u17" (_processing_loop 4 p).2
  = [PostAttendance "u17" "dev001" (usec 10) "manual" "" "present"]
  ∧ last_attendance_time (_processing_loop 4 p).1 !! "u17" = Some (usec 10).
Proof.
  intros a p.
  apply (proj1 (proj2 (proj2
           (attendance_dedup_window p "u17" (a "u17") (a "u17") no_metadata no_metadata
              (usec 10) (usec 40)
              [mk_item "sensor" (RawData "21.5") no_metadata (usec 20);
               mk_item "attendance" (AttendanceData (a "u18")) no_metadata (usec 30)]
              [] eq_refl eq_refl ltac:(repeat constructor) eq_refl
              ltac:(intros last_time H; discriminate H))))).
  vm_compute. reflexivity.
Defined.

(** C5 as written fails when the first of the two items is itself a
    duplicate.  Three items of one subject are queued at 5 s, 10 s and 75 s
    and the first is processed: the cooldown time is 5 s.  The items at 10 s
    and 75 s are 65 s apart, yet only the one at 75 s is reported, the one at
    10 s being within the window of the one at 5 s. *)
Lemma suppressed_first_item_not_forwarded : ¬ spaced_items_both_forwarded.
Proof.
  intros H.
  set (a := mk_attendance (Some "u17") None None).
  set (ops := [LoopTurn;
               ProcessData (usec 75) (AttendanceData a) "attendance" None;
               ProcessData (usec 10) (AttendanceData a) "attendance" None;
               ProcessData (usec 5) (AttendanceData a) "attendance" None]).
  set (p := foldr step (init "dev001" false) ops).
  assert (reachable "dev001" false p) as Hp.
  { unfold p, ops. cbn [foldr]. do 4 apply reachable_step. apply reachable_init. }
  specialize (H "dev001" false p "u17" a a no_metadata no_metadata
                (usec 10) (usec 75) [] Hp eq_refl eq_refl eq_refl).
  assert (usec (min_attendance_interval p) < usec 75 - usec 10) as Hgap
      by (vm_compute; reflexivity).
  specialize (H Hgap). vm_compute in H. discriminate H.
Qed.
End AttendanceDedup.

(* ===================================================================== *)
(** * The device client's handlers on the MQTT client                     *)
(* ===================================================================== *)
Section DeviceClientHandlers.
Import MQTTClient DeviceClient.
Implicit Types (c : client) (cbs : list (string * handler)).

Lemma split_inj sep s1 s2 : split sep s1 = split sep s2 → s1 = s2.
Proof.
  revert s2. induction s1 as [|a s1 IH]; intros [|b s2]; simpl; [done| | |].
  - destruct (decide (b = sep)).
    + intros H. injection H as H. symmetry in H. by apply split_not_nil in H.
    + by destruct (split sep s2).
  - destruct (decide (a = sep)).
    + intros H. injection H as H. by apply split_not_nil in H.
    + by destruct (split sep s1).
  - destruct (decide (a = sep)) as [Ha|Ha], (decide (b = sep)) as [Hb|Hb].
    + intros H. injection H as H. f_equal; [congruence|by apply IH].
    + by destruct (split sep s2).
    + by destruct (split sep s1).
    + destruct (split sep s1) as [|t1 ts1] eqn:E1; [by apply split_not_nil in E1|].
      destruct (split sep s2) as [|t2 ts2] eqn:E2; [by apply split_not_nil in E2|].
      intros H. injection H as -> -> ->. f_equal. apply IH. done.
Qed.

Lemma split_app_sep sep s1 s2 :
  split sep (s1 +:+ String sep s2) = split sep s1 ++ split sep s2.
Proof.
  induction s1 as [|a s1 IH]; simpl.
  - by rewrite decide_True.
  - destruct (decide (a = sep)); [by rewrite IH|].
    rewrite IH. destruct (split sep s1) as [|t ts] eqn:E; [|done].
    by apply split_not_nil in E.
Qed.

(** The tokens of the control topic: the device id's own between
    [devices] and [control]. *)
Lemma control_topic_tokens c :
  split slash (control_topic c)
  = "devices" :: split slash (device_id c) ++ ["control"].
Proof.
  unfold control_topic.
  change ("devices/" +:+ device_id c +:+ "/control")
    with ("devices" +:+ String slash (device_id c +:+ String slash "control")).
  by rewrite !split_app_sep.
Qed.

Lemma dict_set_elem {A} k (v : A) d k' v' :
  (k', v') ∈ dict_set k v d → (k', v') = (k, v) ∨ (k', v') ∈ d.
Proof.
  induction d as [|[k0 v0] d IH]; simpl.
  - intros H. apply list_elem_of_singleton in H. by left.
  - destruct (decide (k0 = k)).
    + intros H. apply elem_of_cons in H as [H|H]; [by left|]. right. by right.
    + intros H. apply elem_of_cons in H as [H|H]; [right; rewrite H; by left|].
      destruct (IH H) as [?|?]; [by left|]. right. by right.
Qed.

Lemma dict_get_elem {A} k (v : A) d : dict_get k d = Some v → (k, v) ∈ d.
Proof.
  induction d as [|[k0 v0] d IH]; simpl; [done|].
  destruct (decide (k0 = k)) as [->|].
  - intros H. injection H as ->. by left.
  - intros H. right. by apply IH.
Qed.

(** Whatever the scan calls is in the table under a pattern that matches. *)
Lemma scan_callbacks_invokes cbs topic payload h t p :
  Invoke h t p ∈ scan_callbacks cbs topic payload →
  ∃ reg, (reg, h) ∈ cbs ∧ _topic_matches reg topic = Some true.
Proof.
  induction cbs as [|[reg h0] cbs IH]; simpl.
  - intros H. apply list_elem_of_singleton in H. discriminate H.
  - destruct (_topic_matches reg topic) as [[|]|] eqn:Hm.
    + intros H. apply list_elem_of_singleton in H. injection H as -> _ _.
      exists reg. split; [by left|done].
    + intros H. destruct (IH H) as (r & Hin & Hr). exists r. split; [by right|done].
    + intros H. apply list_elem_of_singleton in H. discriminate H.
Qed.

(** A pattern without wildcard tokens matches its own text only. *)
Lemma plain_pattern_matches_itself subscription topic :
  "+" ∉ split slash subscription → "#" ∉ split slash subscription →
  _topic_matches subscription topic = Some true → topic = subscription.
Proof.
  intros Hplus Hhash Hm. unfold _topic_matches in Hm.
  apply parts_match_no_hash in Hm; [|done].
  apply token_ok_no_plus in Hm; [|done].
  symmetry. by apply (split_inj slash).
Qed.

(** X19: the device client subscribes its own handlers to the client's
    control topic and to devices/broadcast.  Take a connected client whose
    transport accepts both, whose device id has no wildcard token ([+] or
    [#]) and whose table does not already hold the control handler under
    another topic.  After the registration the control handler is in the
    table under the control topic; a message on devices/broadcast calls the
    broadcast handler; and no message, on whatever topic and with whatever
    payload, calls the control handler: the MQTT client answers its control
    topic itself before it looks at the table, and no other topic matches
    the wildcard-free control pattern.  If the client is not connected at
    that moment, nothing is registered. *)
Theorem control_handler_is_never_called
    (json_loads : string → option control_data) tr now c :
  is_connected c = true →
  "+" ∉ split slash (device_id c) →
  "#" ∉ split slash (device_id c) →
  (∀ t h, (t, h) ∈ message_callbacks c → h ≠ _handle_control_message) →
  ∃ c', _register_mqtt_handlers true true (Some c) = Some c'
        ∧ dict_get (control_topic c') (message_callbacks c')
          = Some _handle_control_message
        ∧ (∀ text,
              _on_message json_loads tr now "devices/broadcast" (Some text) c'
              = [Invoke _handle_broadcast_message "devices/broadcast" text])
        ∧ (∀ topic payload t p,
              Invoke _handle_control_message t p
              ∉ _on_message json_loads tr now topic payload c')
        ∧ _register_mqtt_handlers true true (Some (set_connected false c))
          = Some (set_connected false c).
Proof.
  intros Hconn Hplus Hhash Hfresh. eexists. split; [reflexivity|].
  unfold subscribe. rewrite Hconn. cbn [negb snd is_connected message_callbacks].
  set (c' := mk_client _ _ _).
  assert (control_topic c' = control_topic c) as Hct by done.
  assert (dict_get "devices/broadcast" (message_callbacks c')
          = Some _handle_broadcast_message) as Hb.
  { apply dict_get_set_eq. }
  assert (∀ k, (k, _handle_control_message) ∈ message_callbacks c' →
               k = control_topic c) as Honly.
  { intros k Hin. unfold c' in Hin. cbn [message_callbacks] in Hin.
    apply dict_set_elem in Hin as [Hin|Hin]; [discriminate Hin|].
    apply dict_set_elem in Hin as [Hin|Hin]; [by injection Hin|].
    by apply Hfresh in Hin. }
  assert ("+" ∉ split slash (control_topic c)) as Hcplus.
  { rewrite control_topic_tokens. intros Hin.
    apply elem_of_cons in Hin as [Hin|Hin]; [discriminate Hin|].
    apply elem_of_app in Hin as [Hin|Hin]; [done|].
    apply list_elem_of_singleton in Hin. discriminate Hin. }
  assert ("#" ∉ split slash (control_topic c)) as Hchash.
  { rewrite control_topic_tokens. intros Hin.
    apply elem_of_cons in Hin as [Hin|Hin]; [discriminate Hin|].
    apply elem_of_app in Hin as [Hin|Hin]; [done|].
    apply list_elem_of_singleton in Hin. discriminate Hin. }
  split.
  { rewrite Hct. unfold c'. cbn [message_callbacks].
    rewrite dict_get_set_ne by apply control_topic_not_broadcast.
    apply dict_get_set_eq. }
  split.
  { intros text. unfold _on_message.
    rewrite decide_False by (rewrite Hct; intros H; symmetry in H;
                             by apply control_topic_not_broadcast in H).
    by rewrite Hb. }
  split; [|done].
  intros topic [text|] t p Hin; unfold _on_message in Hin;
    [|apply list_elem_of_singleton in Hin; discriminate Hin].
  destruct (decide (topic = control_topic c')) as [Htopic|Htopic].
  - assert (Invoke _handle_control_message t p
            ∈ invoked (MQTTClient._handle_control_message json_loads tr now text c'))
      as Hinv by (unfold invoked; by apply list_elem_of_filter).
    rewrite control_message_invokes_nothing in Hinv. by apply elem_of_nil in Hinv.
  - rewrite Hct in Htopic.
    destruct (dict_get topic (message_callbacks c')) as [h|] eqn:Hget.
    + apply list_elem_of_singleton in Hin. injection Hin as <- _ _.
      apply dict_get_elem, Honly in Hget. contradiction.
    + apply scan_callbacks_invokes in Hin as (reg & Hreg & Hm).
      apply Honly in Hreg as ->.
      by apply plain_pattern_matches_itself in Hm.
Qed.

Lemma control_handler_is_never_called_witness :
  let c := mk_client "dev001" true [("devices/+/status", 7%nat)] in
  ∃ c', _register_mqtt_handlers true true (Some c) = Some c'
        ∧ _on_message sample_loads rc_success 3 "devices/broadcast" (Some "hello") c'
          = [Invoke _handle_broadcast_message "devices/broadcast" "hello"]
        ∧ Invoke _handle_control_message "devices/dev001/status" "up"
          ∉ _on_message sample_loads rc_success 3 "devices/dev001/status" (Some "up") c'.
Proof.
  intros c.
  destruct (control_handler_is_never_called sample_loads rc_success 3 c eq_refl
              ltac:(simpl; intros H; apply list_elem_of_singleton in H; discriminate H)
              ltac:(simpl; intros H; apply list_elem_of_singleton in H; discriminate H)
              ltac:(simpl; intros t h H; apply list_elem_of_singleton in H;
                    injection H as _ ->; discriminate))
    as (c' & H1 & _ & H3 & H4 & _).
  exists c'. split; [done|]. split; [apply H3|apply H4].
Defined.

(** The condition on the device id is needed: a device whose id is the
    token [+] has a control pattern that other devices' control topics match,
    and a message on one of them reaches the control handler through the
    wildcard scan. *)
Lemma wildcard_device_id_reaches_control_handler :
  let c := mk_client "+" true [] in
  ∃ c', _register_mqtt_handlers true true (Some c) = Some c'
        ∧ _on_message sample_loads rc_success 3 "devices/x/control" (Some "hello") c'
          = [Invoke _handle_control_message "devices/x/control" "hello"].
Proof. intros c. eexists. split; reflexivity. Qed.
End DeviceClientHandlers.
